(** * Bijaz position heartbeat: trigger evaluator, action validation, journal

    A shallow embedding of
    - [src/core/heartbeat_triggers.ts] (the significance filter),
    - [src/memory/position_heartbeat_journal.ts] (the journal writer),
    - the advisor's action validation of [src/core/position_heartbeat.ts],
    together with the properties the specification states about them.

    JavaScript numbers are IEEE 754 binary64 values; they are embedded as
    Rocq's primitive [float], whose operations are the binary64 ones (one NaN,
    signed zeros and infinities, round to nearest even). *)

From Stdlib Require Import ZArith Floats Strings.String.
From stdpp Require Import base option list gmap fin_maps strings.

Local Open Scope Z_scope.

(** ** JavaScript numbers *)

Module JsNumber.

Abbreviation num := float.

(** Comparison operators of the language on numbers. Every comparison with
    NaN is false, except [!==] which is true. *)
Definition ge (a b : num) : bool := (b <=? a)%float.
Definition gt (a b : num) : bool := (b <? a)%float.
Definition le (a b : num) : bool := (a <=? b)%float.
Definition lt (a b : num) : bool := (a <? b)%float.
Definition strictEq (a b : num) : bool := (a =? b)%float.
Definition strictNe (a b : num) : bool := negb (a =? b)%float.
Arguments ge (a b)%_float.
Arguments gt (a b)%_float.
Arguments le (a b)%_float.
Arguments lt (a b)%_float.
Arguments strictEq (a b)%_float.
Arguments strictNe (a b)%_float.

(** [Number.isFinite] *)
Definition isFinite (n : num) : bool := PrimFloat.is_finite n.

(** [Math.abs] *)
Definition mathAbs (n : num) : num := PrimFloat.abs n.

(** The number denoted by an integer literal or an integer-valued
    expression; exact below 2^53 in absolute value. *)
Definition ofZ (z : Z) : num := SF2Prim (binary_normalize prec emax z 0 false).

(** [Math.trunc] on a finite number, as the integer it denotes (the sign of
    a zero result is dropped: every use below compares the result with an
    integer bound). *)
Definition truncZ (n : num) : Z :=
  match Prim2SF n with
  | S754_finite s m e =>
      let a := Z.shiftl (Z.pos m) e in if s then - a else a
  | _ => 0
  end.

End JsNumber.

Import JsNumber.

Set Warnings "-inexact-float,-clear-no-such-hyp,-register-all".

(** ** The significance filter: [src/core/heartbeat_triggers.ts] *)

Module HeartbeatTriggers.

Inductive PositionSide := long | short.

Record PositionTick := {
  timestamp : num;
  symbol : string;
  markPrice : num;
  entryPrice : num;
  unrealizedPnl : num;
  pnlPctOfEquity : num;
  accountEquity : num;
  liquidationPrice : num;
  distToLiquidationPct : num;
  fundingRate : num;
  stopLossPrice : option num;
  takeProfitPrice : option num;
  positionSide : PositionSide;
  positionSize : num;
}.

Inductive HeartbeatTriggerName :=
| pnl_shift
| approaching_stop
| approaching_tp
| liquidation_proximity
| funding_flip
| funding_spike
| volatility_spike
| time_ceiling
| stop_missing
| position_opened
| position_closed.

Global Instance HeartbeatTriggerName_eq_dec : EqDecision HeartbeatTriggerName.
Proof. solve_decision. Defined.

Definition nameCode (n : HeartbeatTriggerName) : positive :=
  match n with
  | pnl_shift => 1 | approaching_stop => 2 | approaching_tp => 3
  | liquidation_proximity => 4 | funding_flip => 5 | funding_spike => 6
  | volatility_spike => 7 | time_ceiling => 8 | stop_missing => 9
  | position_opened => 10 | position_closed => 11
  end%positive.

Definition codeName (p : positive) : option HeartbeatTriggerName :=
  match p with
  | 1 => Some pnl_shift | 2 => Some approaching_stop | 3 => Some approaching_tp
  | 4 => Some liquidation_proximity | 5 => Some funding_flip
  | 6 => Some funding_spike | 7 => Some volatility_spike
  | 8 => Some time_ceiling | 9 => Some stop_missing
  | 10 => Some position_opened | 11 => Some position_closed
  | _ => None
  end%positive.

Global Program Instance HeartbeatTriggerName_countable :
  Countable HeartbeatTriggerName := inj_countable nameCode codeName _.
Next Obligation. by intros []. Qed.

(** A template literal: its fixed text and its holes. [Fixed x d] is
    [x.toFixed(d)], [Shown x] the default conversion of a number. *)
Inductive Piece :=
| Lit (s : string)
| Fixed (x : num) (digits : nat)
| Shown (x : num).

Record HeartbeatTriggerFired := {
  name : HeartbeatTriggerName;
  detail : list Piece;
}.

Record TriggerState := {
  lastLlmCheckTimestamp : num;
  lastLlmPnlPctOfEquity : num;
  lastLlmMarkPrice : num;
  lastFundingRateSign : num;
  triggerCooldowns : gmap HeartbeatTriggerName num;
}.

Record HeartbeatTriggerConfig := {
  pnlShiftPct : num;
  approachingStopPct : num;
  approachingTpPct : num;
  liquidationProximityPct : num;
  fundingSpike : num;
  volatilitySpikePct : num;
  volatilitySpikeWindowTicks : num;
  timeCeilingMinutes : num;
  triggerCooldownSeconds : num;
}.

Definition clampInt (n : num) (min max : Z) : Z :=
  if negb (isFinite n) then min
  else Z.min max (Z.max min (truncZ n)).

Definition sign (n : num) : num :=
  if negb (isFinite n) || strictEq n 0 then 0%float
  else if gt n 0 then 1%float else (-1)%float.

Definition pctDistance (a b : num) : num :=
  if negb (isFinite a) || strictEq a 0 || negb (isFinite b) then infinity
  else (mathAbs (a - b) / mathAbs a * 100)%float.

Definition canFire (name : HeartbeatTriggerName) (nowMs cooldownMs : num)
    (state : TriggerState) : bool :=
  let last := default 0%float (triggerCooldowns state !! name) in
  if le cooldownMs 0 then true else ge (nowMs - last)%float cooldownMs.

(** The table is a JavaScript object indexed by name; it has an entry for
    each of the eleven names. *)
Definition DEFAULT_COOLDOWNS_MS (n : HeartbeatTriggerName) : option num :=
  Some match n with
       | pnl_shift => (3 * 60000)%float
       | approaching_stop => (2 * 60000)%float
       | approaching_tp => (2 * 60000)%float
       | liquidation_proximity => 60000%float
       | funding_flip => (10 * 60000)%float
       | funding_spike => (10 * 60000)%float
       | volatility_spike => (3 * 60000)%float
       | time_ceiling => 0%float
       | stop_missing => 60000%float
       | position_opened => 0%float
       | position_closed => 0%float
       end.

Definition defaultTriggerState (_nowMs : num) : TriggerState :=
  {| lastLlmCheckTimestamp := 0%float;
     lastLlmPnlPctOfEquity := 0%float;
     lastLlmMarkPrice := 0%float;
     lastFundingRateSign := 0%float;
     triggerCooldowns := ∅ |}.

(** *** The store

    Trigger states are objects: the evaluator receives a reference, writes
    through it, and returns the same reference as [nextState]. The cooldown
    table is an object of its own; the evaluator reaches it only through
    its state object, so the cell of a state holds the table. *)

Definition loc := positive.

Record Machine := {
  heap : gmap loc TriggerState;
  firedArr : list HeartbeatTriggerFired;   (* the local array [fired] *)
}.

Inductive outcome (A : Type) :=
| Returned (a : A)
| TypeError.
Arguments Returned {A} a.
Arguments TypeError {A}.

Definition M (A : Type) : Type := Machine → outcome A * Machine.

Global Instance M_ret : MRet M := λ A a m, (Returned a, m).
Global Instance M_bind : MBind M := λ A B f c m,
  match c m with
  | (Returned a, m') => f a m'
  | (TypeError, m') => (TypeError, m')
  end.

Definition throwTypeError {A} : M A := λ m, (TypeError, m).

(** Reading the object behind a reference. *)
Definition deref (l : loc) : M TriggerState := λ m,
  match heap m !! l with
  | Some s => (Returned s, m)
  | None => (TypeError, m)
  end.

(** [new]: a fresh object. *)
Definition alloc (s : TriggerState) : M loc := λ m,
  let l := fresh (dom (heap m)) in
  (Returned l, {| heap := <[l := s]> (heap m); firedArr := firedArr m |}).

Definition setCooldown (s : TriggerState) (n : HeartbeatTriggerName)
    (v : num) : TriggerState :=
  {| lastLlmCheckTimestamp := lastLlmCheckTimestamp s;
     lastLlmPnlPctOfEquity := lastLlmPnlPctOfEquity s;
     lastLlmMarkPrice := lastLlmMarkPrice s;
     lastFundingRateSign := lastFundingRateSign s;
     triggerCooldowns := <[n := v]> (triggerCooldowns s) |}.

(** [state.triggerCooldowns[name] = v] *)
Definition assignCooldown (l : loc) (n : HeartbeatTriggerName) (v : num) :
    M unit := λ m,
  match heap m !! l with
  | Some s =>
      (Returned tt,
       {| heap := <[l := setCooldown s n v]> (heap m); firedArr := firedArr m |})
  | None => (TypeError, m)
  end.

(** [fired.push(f)] *)
Definition push (f : HeartbeatTriggerFired) : M unit := λ m,
  (Returned tt, {| heap := heap m; firedArr := firedArr m ++ [f] |}).

Definition getFired : M (list HeartbeatTriggerFired) := λ m,
  (Returned (firedArr m), m).

Definition when (c : bool) (body : M unit) : M unit :=
  if c then body else mret tt.

(** [xs[i]]: [undefined] outside the array. *)
Definition arrayGet {A} (xs : list A) (i : Z) : option A :=
  if i <? 0 then None else xs !! Z.to_nat i.

Record Extra := {
  positionOpened : option bool;
  positionClosed : option bool;
}.

Record Params := {
  nowMs : num;
  tick : PositionTick;
  buffer : list PositionTick;
  state : option loc;
  cfg : HeartbeatTriggerConfig;
  extra : option Extra;
}.

Record Result := {
  fired : list HeartbeatTriggerFired;
  nextState : loc;
}.

(** [params.extra?.positionOpened] as a condition. *)
Definition truthy (b : option bool) : bool := default false b.

Definition cooldownMs (cfg : HeartbeatTriggerConfig)
    (n : HeartbeatTriggerName) : num :=
  let defaultCooldownMs := ofZ (clampInt (triggerCooldownSeconds cfg) 0 86400 * 1000) in
  default defaultCooldownMs (DEFAULT_COOLDOWNS_MS n).

(** The closure [record] of the evaluator, with the variables it captures
    as parameters. *)
Definition record (state : loc) (nowMs : num) (cfg : HeartbeatTriggerConfig)
    (n : HeartbeatTriggerName) (d : list Piece) : M unit :=
  let cd := cooldownMs cfg n in
  s ← deref state;
  if negb (canFire n nowMs cd s) then mret tt
  else
    push {| name := n; detail := d |};;
    assignCooldown state n nowMs.

(** The fields of [TriggerState] are numbers by their type, so the
    [?? 0] the source applies when it reads them never takes its default;
    [params.state] itself may be absent, and is then a fresh default state. *)
Definition evaluateHeartbeatTriggers (params : Params) : M Result :=
  let nowMs := nowMs params in
  let tick := tick params in
  let buffer := buffer params in
  let cfg := cfg params in
  state ← match state params with
          | Some l => mret l
          | None => alloc (defaultTriggerState nowMs)
          end;
  let record := record state nowMs cfg in
  when (truthy (extra params ≫= positionOpened))
    (record position_opened [Lit "New position detected since last tick."]);;
  when (truthy (extra params ≫= positionClosed))
    (record position_closed [Lit "Position disappeared since last tick."]);;
  when (bool_decide (stopLossPrice tick = None))
    (record stop_missing
       [Lit "Position open but no stop-loss trigger order found."]);;
  s ← deref state;
  let pnlShift := mathAbs (pnlPctOfEquity tick - lastLlmPnlPctOfEquity s)%float in
  when (ge pnlShift (mathAbs (pnlShiftPct cfg)))
    (record pnl_shift
       [Lit "Unrealized PnL shifted "; Fixed pnlShift 2;
        Lit "% of equity since last LLM check."]);;
  match stopLossPrice tick with
  | Some stop =>
      let dist := pctDistance (markPrice tick) stop in
      when (le dist (mathAbs (approachingStopPct cfg)))
        (record approaching_stop
           [Lit "Price is within "; Fixed dist 2; Lit "% of stop-loss."])
  | None => mret tt
  end;;
  match takeProfitPrice tick with
  | Some tp =>
      let dist := pctDistance (markPrice tick) tp in
      when (le dist (mathAbs (approachingTpPct cfg)))
        (record approaching_tp
           [Lit "Price is within "; Fixed dist 2; Lit "% of take-profit."])
  | None => mret tt
  end;;
  when (le (distToLiquidationPct tick) (mathAbs (liquidationProximityPct cfg)))
    (record liquidation_proximity
       [Lit "Distance to liquidation is "; Fixed (distToLiquidationPct tick) 2;
        Lit "%."]);;
  let fundingSign := sign (fundingRate tick) in
  s ← deref state;
  let lastSign := sign (lastFundingRateSign s) in
  when (strictNe lastSign 0 && strictNe fundingSign 0
        && strictNe fundingSign lastSign)
    (record funding_flip
       [Lit "Funding rate sign flipped ("; Shown lastSign; Lit " -> ";
        Shown fundingSign; Lit ")."]);;
  when (ge (mathAbs (fundingRate tick)) (mathAbs (fundingSpike cfg)))
    (record funding_spike
       [Lit "Funding rate magnitude ("; Shown (fundingRate tick);
        Lit ") exceeded threshold ("; Shown (fundingSpike cfg); Lit ")."]);;
  let window := clampInt (volatilitySpikeWindowTicks cfg) 1 10000 in
  (if Z.of_nat (length buffer) >=? window then
     match arrayGet buffer (Z.of_nat (length buffer) - window) with
     | None => throwTypeError        (* [base.markPrice] of [undefined] *)
     | Some base =>
         let basePx := markPrice base in
         let movePct :=
           if isFinite basePx && gt basePx 0
           then (mathAbs (markPrice tick - basePx) / basePx * 100)%float
           else 0%float in
         when (ge movePct (mathAbs (volatilitySpikePct cfg)))
           (record volatility_spike
              [Lit "Price moved "; Fixed movePct 2; Lit "% over last ";
               Shown (ofZ window); Lit " ticks."])
     end
   else mret tt);;
  let ceilingMs := clampInt (timeCeilingMinutes cfg) 1 10000 * 60000 in
  s ← deref state;
  (if (ceilingMs >? 0) && gt (lastLlmCheckTimestamp s) 0 then
     let age := (nowMs - lastLlmCheckTimestamp s)%float in
     when (ge age (ofZ ceilingMs))
       (record time_ceiling
          [Lit "No LLM check in "; Fixed (age / 60000)%float 1; Lit " minutes."])
   else mret tt);;
  s ← deref state;
  when ((ceilingMs >? 0) && strictEq (lastLlmCheckTimestamp s) 0)
    (record time_ceiling [Lit "No prior LLM check recorded for this position."]);;
  fired ← getFired;
  mret {| fired := fired; nextState := state |}.

(** A call: the array [fired] is created by the call; the store is the
    caller's. *)
Definition call (params : Params) (h : gmap loc TriggerState) :
    outcome Result * gmap loc TriggerState :=
  let '(r, m) := evaluateHeartbeatTriggers params {| heap := h; firedArr := [] |} in
  (r, heap m).

(** *** The evaluator as a list of guarded records

    The conditions of the evaluator read the tick, the buffer, the
    configuration and the four advisor fields of the state, none of which a
    [record] changes. [candidates] lists, in program order, the triggers whose
    condition holds; [recordStep] is the effect of one [record] on the array
    [fired] and on the state object. [evaluate_run] below shows that the
    evaluator is the left fold of [recordStep] over [candidates]. *)

Definition candidate (c : bool) (n : HeartbeatTriggerName) (d : list Piece) :
    list (HeartbeatTriggerName * list Piece) :=
  if c then [(n, d)] else [].

Definition recordStep (nowMs : num) (cfg : HeartbeatTriggerConfig)
    (acc : list HeartbeatTriggerFired * TriggerState)
    (c : HeartbeatTriggerName * list Piece) :
    list HeartbeatTriggerFired * TriggerState :=
  if canFire c.1 nowMs (cooldownMs cfg c.1) acc.2
  then (acc.1 ++ [{| name := c.1; detail := c.2 |}], setCooldown acc.2 c.1 nowMs)
  else acc.

Definition runRecords (nowMs : num) (cfg : HeartbeatTriggerConfig)
    (cs : list (HeartbeatTriggerName * list Piece))
    (acc : list HeartbeatTriggerFired * TriggerState) :
    list HeartbeatTriggerFired * TriggerState :=
  fold_left (recordStep nowMs cfg) cs acc.

Definition timeCeilingAged (nowMs : num) (cfg : HeartbeatTriggerConfig)
    (s : TriggerState) : bool :=
  let ceilingMs := clampInt (timeCeilingMinutes cfg) 1 10000 * 60000 in
  (ceilingMs >? 0) && gt (lastLlmCheckTimestamp s) 0
  && ge (nowMs - lastLlmCheckTimestamp s)%float (ofZ ceilingMs).

Definition timeCeilingFirst (cfg : HeartbeatTriggerConfig) (s : TriggerState) :
    bool :=
  let ceilingMs := clampInt (timeCeilingMinutes cfg) 1 10000 * 60000 in
  (ceilingMs >? 0) && strictEq (lastLlmCheckTimestamp s) 0.

Definition candidates (params : Params) (s : TriggerState) :
    list (HeartbeatTriggerName * list Piece) :=
  let nowMs := nowMs params in
  let tick := tick params in
  let buffer := buffer params in
  let cfg := cfg params in
  let pnlShift := mathAbs (pnlPctOfEquity tick - lastLlmPnlPctOfEquity s)%float in
  let fundingSign := sign (fundingRate tick) in
  let lastSign := sign (lastFundingRateSign s) in
  let window := clampInt (volatilitySpikeWindowTicks cfg) 1 10000 in
  let age := (nowMs - lastLlmCheckTimestamp s)%float in
  candidate (truthy (extra params ≫= positionOpened)) position_opened
    [Lit "New position detected since last tick."]
  ++ candidate (truthy (extra params ≫= positionClosed)) position_closed
    [Lit "Position disappeared since last tick."]
  ++ candidate (bool_decide (stopLossPrice tick = None)) stop_missing
    [Lit "Position open but no stop-loss trigger order found."]
  ++ candidate (ge pnlShift (mathAbs (pnlShiftPct cfg))) pnl_shift
    [Lit "Unrealized PnL shifted "; Fixed pnlShift 2;
     Lit "% of equity since last LLM check."]
  ++ match stopLossPrice tick with
     | Some stop =>
         let dist := pctDistance (markPrice tick) stop in
         candidate (le dist (mathAbs (approachingStopPct cfg))) approaching_stop
           [Lit "Price is within "; Fixed dist 2; Lit "% of stop-loss."]
     | None => []
     end
  ++ match takeProfitPrice tick with
     | Some tp =>
         let dist := pctDistance (markPrice tick) tp in
         candidate (le dist (mathAbs (approachingTpPct cfg))) approaching_tp
           [Lit "Price is within "; Fixed dist 2; Lit "% of take-profit."]
     | None => []
     end
  ++ candidate
       (le (distToLiquidationPct tick) (mathAbs (liquidationProximityPct cfg)))
       liquidation_proximity
       [Lit "Distance to liquidation is "; Fixed (distToLiquidationPct tick) 2;
        Lit "%."]
  ++ candidate
       (strictNe lastSign 0 && strictNe fundingSign 0
        && strictNe fundingSign lastSign)
       funding_flip
       [Lit "Funding rate sign flipped ("; Shown lastSign; Lit " -> ";
        Shown fundingSign; Lit ")."]
  ++ candidate (ge (mathAbs (fundingRate tick)) (mathAbs (fundingSpike cfg)))
       funding_spike
       [Lit "Funding rate magnitude ("; Shown (fundingRate tick);
        Lit ") exceeded threshold ("; Shown (fundingSpike cfg); Lit ")."]
  ++ (if Z.of_nat (length buffer) >=? window then
        match arrayGet buffer (Z.of_nat (length buffer) - window) with
        | None => []
        | Some base =>
            let basePx := markPrice base in
            let movePct :=
              if isFinite basePx && gt basePx 0
              then (mathAbs (markPrice tick - basePx) / basePx * 100)%float
              else 0%float in
            candidate (ge movePct (mathAbs (volatilitySpikePct cfg)))
              volatility_spike
              [Lit "Price moved "; Fixed movePct 2; Lit "% over last ";
               Shown (ofZ window); Lit " ticks."]
        end
      else [])
  ++ candidate (timeCeilingAged nowMs cfg s) time_ceiling
       [Lit "No LLM check in "; Fixed (age / 60000)%float 1; Lit " minutes."]
  ++ candidate (timeCeilingFirst cfg s) time_ceiling
       [Lit "No prior LLM check recorded for this position."].

(** The trigger catalog: the condition under which the evaluator records
    each name, on a state object with contents [s]. *)
Definition condition (params : Params) (s : TriggerState)
    (n : HeartbeatTriggerName) : bool :=
  let tick := tick params in
  let buffer := buffer params in
  let cfg := cfg params in
  match n with
  | position_opened => truthy (extra params ≫= positionOpened)
  | position_closed => truthy (extra params ≫= positionClosed)
  | stop_missing => bool_decide (stopLossPrice tick = None)
  | pnl_shift =>
      ge (mathAbs (pnlPctOfEquity tick - lastLlmPnlPctOfEquity s)%float)
         (mathAbs (pnlShiftPct cfg))
  | approaching_stop =>
      match stopLossPrice tick with
      | Some stop =>
          le (pctDistance (markPrice tick) stop) (mathAbs (approachingStopPct cfg))
      | None => false
      end
  | approaching_tp =>
      match takeProfitPrice tick with
      | Some tp =>
          le (pctDistance (markPrice tick) tp) (mathAbs (approachingTpPct cfg))
      | None => false
      end
  | liquidation_proximity =>
      le (distToLiquidationPct tick) (mathAbs (liquidationProximityPct cfg))
  | funding_flip =>
      strictNe (sign (lastFundingRateSign s)) 0
      && strictNe (sign (fundingRate tick)) 0
      && strictNe (sign (fundingRate tick)) (sign (lastFundingRateSign s))
  | funding_spike =>
      ge (mathAbs (fundingRate tick)) (mathAbs (fundingSpike cfg))
  | volatility_spike =>
      let window := clampInt (volatilitySpikeWindowTicks cfg) 1 10000 in
      (Z.of_nat (length buffer) >=? window)
      && match arrayGet buffer (Z.of_nat (length buffer) - window) with
         | Some base =>
             let basePx := markPrice base in
             ge (if isFinite basePx && gt basePx 0
                 then (mathAbs (markPrice tick - basePx) / basePx * 100)%float
                 else 0%float)
                (mathAbs (volatilitySpikePct cfg))
         | None => false
         end
  | time_ceiling =>
      timeCeilingAged (nowMs params) cfg s || timeCeilingFirst cfg s
  end.

(** The names recorded out of the candidates [cs] from state [s], and the
    state they leave. *)
Definition recorded (nowMs : num) (cfg : HeartbeatTriggerConfig)
    (cs : list (HeartbeatTriggerName * list Piece)) (s : TriggerState) :
    list HeartbeatTriggerName :=
  name <$> (runRecords nowMs cfg cs ([], s)).1.

Definition stateAfter (nowMs : num) (cfg : HeartbeatTriggerConfig)
    (cs : list (HeartbeatTriggerName * list Piece)) (s : TriggerState) :
    TriggerState :=
  (runRecords nowMs cfg cs ([], s)).2.

(** The machine in which the object at [l] is [acc.2] and the array [fired]
    is [acc.1]. *)
Definition cellOf (l : loc) (h : gmap loc TriggerState)
    (acc : list HeartbeatTriggerFired * TriggerState) : Machine :=
  {| heap := <[l := acc.2]> h; firedArr := acc.1 |}.

(** Two states with the same advisor-committed fields. *)
Definition sameAdvisorFields (s1 s2 : TriggerState) : Prop :=
  lastLlmCheckTimestamp s1 = lastLlmCheckTimestamp s2
  ∧ lastLlmPnlPctOfEquity s1 = lastLlmPnlPctOfEquity s2
  ∧ lastLlmMarkPrice s1 = lastLlmMarkPrice s2
  ∧ lastFundingRateSign s1 = lastFundingRateSign s2.

(** [body], started on any machine whose object at [l] agrees with [s] on the
    advisor fields, returns [res] of the outcome of recording [cs]. *)
Definition runsTo {A} (l : loc) (h : gmap loc TriggerState) (nowMs : num)
    (cfg : HeartbeatTriggerConfig) (s : TriggerState) (body : M A)
    (cs : list (HeartbeatTriggerName * list Piece))
    (res : list HeartbeatTriggerFired * TriggerState → A) : Prop :=
  ∀ acc, sameAdvisorFields acc.2 s →
    body (cellOf l h acc)
    = (Returned (res (runRecords nowMs cfg cs acc)),
       cellOf l h (runRecords nowMs cfg cs acc)).

(** What a call on a state object with contents [s] reports and leaves in
    the object. *)
Definition outcomeOf (params : Params) (s : TriggerState) :
    list HeartbeatTriggerFired * TriggerState :=
  runRecords (nowMs params) (cfg params) (candidates params s) ([], s).

Definition withState (params : Params) (l : loc) : Params :=
  {| nowMs := nowMs params; tick := tick params; buffer := buffer params;
     state := Some l; cfg := cfg params; extra := extra params |}.

(** The contents of the state the evaluator works on: the caller's object,
    or a default one when [params.state] is absent. *)
Definition inputState (params : Params) (h : gmap loc TriggerState) :
    option TriggerState :=
  match state params with
  | Some l => h !! l
  | None => Some (defaultTriggerState (nowMs params))
  end.

(** The names a call reports, in the order of the array. *)
Definition firedNames (r : Result) : list HeartbeatTriggerName :=
  name <$> fired r.

(** The order in which the evaluator examines the triggers. *)
Definition evaluationOrder : list HeartbeatTriggerName :=
  [position_opened; position_closed; stop_missing; pnl_shift; approaching_stop;
   approaching_tp; liquidation_proximity; funding_flip; funding_spike;
   volatility_spike; time_ceiling].

(** *** Sequences of calls

    Between two calls the caller may write to the state object (the advisor
    path commits the four advisor fields); [keepsCooldowns] are the writes
    that leave its cooldown table alone. [quietly l n h h'] is a stretch of
    such writes and of calls on the object at [l] in which trigger [n] does
    not fire, leading from store [h] to store [h']. *)

Definition keepsCooldowns (l : loc) (h h' : gmap loc TriggerState) : Prop :=
  ∃ s s', h !! l = Some s ∧ h' !! l = Some s'
          ∧ triggerCooldowns s' = triggerCooldowns s.

Inductive quietly (l : loc) (n : HeartbeatTriggerName) :
    gmap loc TriggerState → gmap loc TriggerState → Prop :=
| quietly_done h : quietly l n h h
| quietly_call params h r h' h'' :
    state params = Some l →
    call params h = (Returned r, h') →
    n ∉ firedNames r →
    quietly l n h' h'' →
    quietly l n h h''
| quietly_write h h' h'' :
    keepsCooldowns l h h' →
    quietly l n h' h'' →
    quietly l n h h''.

End HeartbeatTriggers.

(** ** The journal writer: [src/memory/position_heartbeat_journal.ts] *)

Module PositionHeartbeatJournal.

Inductive PositionHeartbeatOutcome := ok | failed | rejected | skipped | info.

(** [unknown] values of the decision and snapshot records. *)
Inductive Json :=
| JNull
| JBool (b : bool)
| JNumber (x : num)
| JString (s : string)
| JArray (xs : list Json)
| JObject (fields : list (string * Json)).

Record PositionHeartbeatDecision := {
  kind : string;                      (* 'position_heartbeat' *)
  symbol : string;
  timestamp : string;                 (* ISO *)
  triggers : list string;
  decision : list (string * Json);
  outcome : PositionHeartbeatOutcome;
  snapshot : option (list (string * Json));
}.

(** The argument of [storeDecisionArtifact]. *)
Module DecisionArtifact.
Record t := {
  source : string;
  kind : string;
  marketId : string;
  fingerprint : string;
  outcome : PositionHeartbeatOutcome;
  payload : PositionHeartbeatDecision;
}.
End DecisionArtifact.

(** [storeDecisionArtifact] belongs to [decision_artifacts.ts], which is not
    among the sources: a call to it is kept, with its argument, in the list
    of the artifacts handed to the store. *)
Definition recordPositionHeartbeatDecision (entry : PositionHeartbeatDecision)
    (stored : list DecisionArtifact.t) : list DecisionArtifact.t :=
  let fingerprint := (symbol entry ++ ":" ++ timestamp entry)%string in
  stored ++ [ {| DecisionArtifact.source := "heartbeat";
                 DecisionArtifact.kind := kind entry;
                 DecisionArtifact.marketId := symbol entry;
                 DecisionArtifact.fingerprint := fingerprint;
                 DecisionArtifact.outcome := outcome entry;
                 DecisionArtifact.payload := entry |} ].

End PositionHeartbeatJournal.

(** ** The advisor path: [src/core/position_heartbeat.ts]

    The file is not among the sources; its tests
    ([tests/core/position_heartbeat]) call [validateAction] on an action, a
    tick and the current stop-loss price. *)

Module PositionHeartbeat.

Import HeartbeatTriggers.

Record ActionParams := {
  newStopPrice : option num;
  newTpPrice : option num;
  fractionOfPosition : option num;
}.

Record AdvisorAction := {
  action : string;
  params : option ActionParams;
  reason : string;
}.

Record Validation := { ok : bool }.

(** The calls on the order collaborator. *)
Inductive OrderCall :=
| tightenStop (symbol : string) (newPrice : num)
| adjustTakeProfit (symbol : string) (newPrice : num)
| partialClose (symbol : string) (fraction : num)
| closePosition (symbol : string) (reason : string).

Inductive AdvisorOutcome := advised | rejected.

Section Advisor.

(** The exchange's minimum position size. *)
Variable minPositionSize : num.

(** Modelled from the spec: [validateAction] of [position_heartbeat.ts],
    which is not among the sources, after the action validation table of
    section 4.5: [hold] and [close] are always allowed; [tighten_stop] needs
    [newStopPrice], for a long strictly above the current stop (any value if
    none is set) and strictly below the mark price, mirrored for a short;
    [adjust_take_profit] needs [newTpPrice] strictly above the mark for a
    long, strictly below for a short; [partial_close] needs a fraction
    strictly between 0 and 1 that leaves at least the exchange's minimum;
    any other action is rejected. *)
Definition validateAction (a : AdvisorAction) (tick : PositionTick)
    (stopLossPrice : option num) : Validation :=
  {| ok :=
      if String.eqb (action a) "hold" then true
      else if String.eqb (action a) "close" then true
      else if String.eqb (action a) "tighten_stop" then
        match params a ≫= newStopPrice with
        | None => false
        | Some p =>
            match positionSide tick with
            | long =>
                match stopLossPrice with
                | Some stop => gt p stop
                | None => true
                end && lt p (markPrice tick)
            | short =>
                match stopLossPrice with
                | Some stop => lt p stop
                | None => true
                end && gt p (markPrice tick)
            end
        end
      else if String.eqb (action a) "adjust_take_profit" then
        match params a ≫= newTpPrice with
        | None => false
        | Some p =>
            match positionSide tick with
            | long => gt p (markPrice tick)
            | short => lt p (markPrice tick)
            end
        end
      else if String.eqb (action a) "partial_close" then
        match params a ≫= fractionOfPosition with
        | None => false
        | Some f =>
            gt f 0 && lt f 1
            && ge (positionSize tick * (1 - f))%float minPositionSize
        end
      else false |}.

(** Modelled from the spec: the dispatch of a validated action to the order
    collaborator (section 4.5 step 6 and the order contract of section 6);
    [hold] sends nothing. *)
Definition dispatch (a : AdvisorAction) (tick : PositionTick) : list OrderCall :=
  if String.eqb (action a) "tighten_stop" then
    match params a ≫= newStopPrice with
    | Some p => [tightenStop (symbol tick) p]
    | None => []
    end
  else if String.eqb (action a) "adjust_take_profit" then
    match params a ≫= newTpPrice with
    | Some p => [adjustTakeProfit (symbol tick) p]
    | None => []
    end
  else if String.eqb (action a) "partial_close" then
    match params a ≫= fractionOfPosition with
    | Some f => [partialClose (symbol tick) f]
    | None => []
    end
  else if String.eqb (action a) "close" then
    [closePosition (symbol tick) (reason a)]
  else [].

(** Modelled from the spec: steps 5 and 6 of the advisor flow of section
    4.5. An invalid action has outcome [rejected] and no order is sent. *)
Definition validateAndDispatch (a : AdvisorAction) (tick : PositionTick)
    (stopLossPrice : option num) : AdvisorOutcome * list OrderCall :=
  if ok (validateAction a tick stopLossPrice)
  then (advised, dispatch a tick)
  else (rejected, []).

End Advisor.

(** Modelled from the spec: the commit of the advisor path (section 4.5
    step 7, invariant 2 of section 8): the four advisor fields of the state
    object are set from the advised tick; the cooldown table is kept. *)
Definition commitAdvisorState (l : loc) (t : PositionTick)
    (h : gmap loc TriggerState) : gmap loc TriggerState :=
  match h !! l with
  | Some s =>
      <[l := {| lastLlmCheckTimestamp := timestamp t;
                lastLlmPnlPctOfEquity := pnlPctOfEquity t;
                lastLlmMarkPrice := markPrice t;
                lastFundingRateSign := sign (fundingRate t);
                triggerCooldowns := triggerCooldowns s |}]> h
  | None => h
  end.

(** Modelled from the spec: the rolling buffer of section 4.2, a FIFO of
    bounded capacity. *)
Definition pushTick (capacity : nat) (buf : list PositionTick)
    (t : PositionTick) : list PositionTick :=
  drop (length (buf ++ [t]) - capacity)%nat (buf ++ [t]).

(** Modelled from the spec: the circuit breakers of section 4.4, with the
    default limits. *)
Definition circuitBreaker (t : PositionTick) : bool :=
  lt (distToLiquidationPct t) 2 || lt (pnlPctOfEquity t) (-5).

Record Watcher := {
  store : gmap loc TriggerState;
  ticks : list PositionTick;
  closed : bool;
  journal : list (list HeartbeatTriggerName);
}.

(** Modelled from the spec: one tick of the position watcher of section
    4.6: push the snapshot, check the circuit breakers, evaluate the
    triggers and, if any fired, run the advisor path and commit. The journal
    keeps the names fired on each tick. *)
Definition watcherTick (cf : HeartbeatTriggerConfig) (l : loc) (w : Watcher)
    (t : PositionTick) : Watcher :=
  if closed w then w
  else
    let buf := pushTick 60 (ticks w) t in
    if circuitBreaker t then
      {| store := store w; ticks := buf; closed := true; journal := journal w |}
    else
      match call {| nowMs := timestamp t; tick := t; buffer := buf;
                    state := Some l; cfg := cf; extra := None |} (store w) with
      | (Returned r, h') =>
          {| store := if bool_decide (fired r = []) then h'
                      else commitAdvisorState l t h';
             ticks := buf; closed := false;
             journal := journal w ++ [firedNames r] |}
      | (TypeError, h') =>
          {| store := h'; ticks := buf; closed := true; journal := journal w |}
      end.

End PositionHeartbeat.

(** ** Inputs of the scenarios *)

Module Scenarios.

Import HeartbeatTriggers PositionHeartbeat.

(** The defaults of the configuration. *)
Definition defaultConfig : HeartbeatTriggerConfig :=
  {| pnlShiftPct := 1.5;
     approachingStopPct := 1.0;
     approachingTpPct := 1.0;
     liquidationProximityPct := 5.0;
     fundingSpike := 0.0001;
     volatilitySpikePct := 2.0;
     volatilitySpikeWindowTicks := 10;
     timeCeilingMinutes := 15;
     triggerCooldownSeconds := 180 |}.

Definition startMs : Z := 1700000000000.

(** The time of tick [i] at 30-second intervals. *)
Definition tickMs (i : nat) : num := ofZ (startMs + 30000 * Z.of_nat i).

(** A long ETH position of 5 ETH entered at 2080 on an account of 10000,
    stop 2050, take-profit 2140, liquidation at 1700, no funding. *)
Definition ethLong (i : nat) (mark : num) (stop : option num) : PositionTick :=
  let pnl := ((mark - 2080) * 5)%float in
  {| timestamp := tickMs i;
     symbol := "ETH";
     markPrice := mark;
     entryPrice := 2080;
     unrealizedPnl := pnl;
     pnlPctOfEquity := (pnl / 10000 * 100)%float;
     accountEquity := 10000;
     liquidationPrice := 1700;
     distToLiquidationPct := (abs (mark - 1700) / abs mark * 100)%float;
     fundingRate := 0;
     stopLossPrice := stop;
     takeProfitPrice := Some 2140%float;
     positionSide := long;
     positionSize := 5 |}.

(** A price in whole cents. *)
Definition centPrice (k : Z) : num := (ofZ k / 100)%float.

(** The mark prices of S1: every price of [2078, 2085] in whole cents. *)
Definition quietPrices : list num := centPrice <$> seqZ 207800 701.

Fixpoint s1Ticks (from : nat) (marks : list num) : list PositionTick :=
  match marks with
  | [] => []
  | m :: marks' => ethLong from m (Some 2050%float) :: s1Ticks (S from) marks'
  end.

(** The PnL shares the advisor can have committed in S1: 0 at the start,
    or that of a tick on the grid. *)
Definition advisedPnls : list num :=
  0%float :: ((λ m, pnlPctOfEquity (ethLong 0 m None)) <$> quietPrices).

(** On a tick at mark [m] no circuit breaker trips and none of the
    conditions that read the tick alone is met. *)
Definition quietAlone (m : num) : bool :=
  let t := ethLong 0 m (Some 2050%float) in
  let cf := defaultConfig in
  negb (circuitBreaker t)
  && negb (le (pctDistance (markPrice t) 2050) (mathAbs (approachingStopPct cf)))
  && negb (le (pctDistance (markPrice t) 2140) (mathAbs (approachingTpPct cf)))
  && negb (le (distToLiquidationPct t) (mathAbs (liquidationProximityPct cf)))
  && negb (ge (mathAbs (fundingRate t)) (mathAbs (fundingSpike cf))).

(** The condition of [pnl_shift] is not met at mark [m] when the advisor
    last committed the PnL share [lp]. *)
Definition quietShift (m lp : num) : bool :=
  let t := ethLong 0 m (Some 2050%float) in
  negb (ge (mathAbs (pnlPctOfEquity t - lp)%float)
           (mathAbs (pnlShiftPct defaultConfig))).

(** The condition of [volatility_spike] is not met at mark [m] when the
    base tick of the window is at mark [b]. *)
Definition quietMove (m b : num) : bool :=
  let t := ethLong 0 m (Some 2050%float) in
  negb (ge (if isFinite b && gt b 0
            then (mathAbs (markPrice t - b) / b * 100)%float
            else 0%float)
           (mathAbs (volatilitySpikePct defaultConfig))).

Definition freshWatcher (l : loc) : Watcher :=
  {| store := {[ l := defaultTriggerState (tickMs 0) ]};
     ticks := [];
     closed := false;
     journal := [] |}.

(** The watcher is open, has seen only ticks on the grid, and its state
    object holds an advisor check at [lastMs] on a tick of the grid. *)
Definition quietWatcher (w : Watcher) (lastMs : num) : Prop :=
  closed w = false
  ∧ Forall (λ t, markPrice t ∈ quietPrices) (ticks w)
  ∧ ∃ s, store w !! 1%positive = Some s
         ∧ lastLlmCheckTimestamp s = lastMs
         ∧ lastLlmPnlPctOfEquity s ∈ advisedPnls
         ∧ lastFundingRateSign s = 0%float.

(** S1: the watcher run over a path of mark prices, from the default
    trigger state. *)
Definition runS1 (marks : list num) : Watcher :=
  fold_left (watcherTick defaultConfig 1%positive) (s1Ticks 0 marks)
    (freshWatcher 1%positive).

Definition timeCeilingFirings (w : Watcher) : nat :=
  length (filter (λ n, n = time_ceiling) (concat (journal w))).

(** A path wandering inside [2078, 2085], in cents, for 60 ticks. *)
Definition zigzag : list num :=
  (λ i, centPrice (207800 + (137 * Z.of_nat i) `mod` 701)) <$> seq 0 60.

(** Whether the time ceiling is due at [nowMs] after an advisor check at
    [lastMs], under the default configuration. *)
Definition ceilingDue (nowMs lastMs : num) : bool :=
  let s := {| lastLlmCheckTimestamp := lastMs; lastLlmPnlPctOfEquity := 0;
              lastLlmMarkPrice := 0; lastFundingRateSign := 0;
              triggerCooldowns := ∅ |} in
  timeCeilingAged nowMs defaultConfig s || timeCeilingFirst defaultConfig s.

(** The ticks on which the time ceiling is due, for [n] ticks from tick
    [k], when the advisor commits on every tick on which it is due. *)
Fixpoint ceilingSchedule (k : nat) (lastMs : num) (n : nat) :
    list (list HeartbeatTriggerName) :=
  match n with
  | O => []
  | S n' =>
      let due := ceilingDue (tickMs k) lastMs in
      (if due then [time_ceiling] else [])
      :: ceilingSchedule (S k) (if due then tickMs k else lastMs) n'
  end.

(** A single evaluation on a one-object store. *)
Definition evaluateOnce (nowMs : num) (t : PositionTick)
    (cf : HeartbeatTriggerConfig) (s : TriggerState) :
    outcome Result * gmap loc TriggerState :=
  call {| nowMs := nowMs; tick := t; buffer := [t]; state := Some 1%positive;
          cfg := cf; extra := None |} {[ 1%positive := s ]}.

Definition namesOf (o : outcome Result * gmap loc TriggerState) :
    list HeartbeatTriggerName :=
  match o.1 with
  | Returned r => firedNames r
  | TypeError => []
  end.

(** A tick of the position with a given PnL share of equity. *)
Definition withPnl (x : num) : PositionTick :=
  let t := ethLong 0 2080 (Some 2050%float) in
  {| timestamp := timestamp t; symbol := symbol t; markPrice := markPrice t;
     entryPrice := entryPrice t; unrealizedPnl := unrealizedPnl t;
     pnlPctOfEquity := x; accountEquity := accountEquity t;
     liquidationPrice := liquidationPrice t;
     distToLiquidationPct := distToLiquidationPct t;
     fundingRate := fundingRate t; stopLossPrice := stopLossPrice t;
     takeProfitPrice := takeProfitPrice t; positionSide := positionSide t;
     positionSize := positionSize t |}.

Definition withFunding (x : num) : PositionTick :=
  let t := ethLong 0 2080 (Some 2050%float) in
  {| timestamp := timestamp t; symbol := symbol t; markPrice := markPrice t;
     entryPrice := entryPrice t; unrealizedPnl := unrealizedPnl t;
     pnlPctOfEquity := pnlPctOfEquity t; accountEquity := accountEquity t;
     liquidationPrice := liquidationPrice t;
     distToLiquidationPct := distToLiquidationPct t;
     fundingRate := x; stopLossPrice := stopLossPrice t;
     takeProfitPrice := takeProfitPrice t; positionSide := positionSide t;
     positionSize := positionSize t |}.

Definition withLiquidationDistance (x : num) : PositionTick :=
  let t := ethLong 0 2080 (Some 2050%float) in
  {| timestamp := timestamp t; symbol := symbol t; markPrice := markPrice t;
     entryPrice := entryPrice t; unrealizedPnl := unrealizedPnl t;
     pnlPctOfEquity := pnlPctOfEquity t; accountEquity := accountEquity t;
     liquidationPrice := liquidationPrice t;
     distToLiquidationPct := x;
     fundingRate := fundingRate t; stopLossPrice := stopLossPrice t;
     takeProfitPrice := takeProfitPrice t; positionSide := positionSide t;
     positionSize := positionSize t |}.

(** *** A position without a stop, polled every 30 seconds *)

Definition unprotected (i : nat) : Params :=
  {| nowMs := tickMs i; tick := ethLong i 2080 None;
     buffer := [ethLong i 2080 None]; state := Some 1%positive;
     cfg := defaultConfig; extra := None |}.

Definition freshStore : gmap loc TriggerState :=
  {[ 1%positive := defaultTriggerState (tickMs 0) ]}.

Definition resultOf (o : outcome Result * gmap loc TriggerState) : Result :=
  match o.1 with
  | Returned r => r
  | TypeError => {| fired := []; nextState := 1%positive |}
  end.

(** The stores after the polls at 0, 30 and 60 seconds. *)
Definition storeAfter0 : gmap loc TriggerState := (call (unprotected 0) freshStore).2.
Definition storeAfter1 : gmap loc TriggerState := (call (unprotected 1) storeAfter0).2.
Definition storeAfter2 : gmap loc TriggerState := (call (unprotected 2) storeAfter1).2.

(** The advisor's reply of scenario S2: tighten the stop to 2080, at mark
    2110 with the stop at 2050. *)
Definition tightenTo (p : num) : AdvisorAction :=
  {| action := "tighten_stop";
     params := Some {| newStopPrice := Some p; newTpPrice := None;
                       fractionOfPosition := None |};
     reason := "trail the stop" |}.

(** *** The statements of the specification that the code does not meet *)

(** S1 as the specification has it: one [time_ceiling] firing in the run,
    and no other trigger. *)
Definition quietHoldClaim (marks : list num) : Prop :=
  timeCeilingFirings (runS1 marks) = 1%nat
  ∧ Forall (λ n, n = time_ceiling) (concat (journal (runS1 marks))).

(** [pnl_shift] as the specification has it: it fires exactly when the
    shift is at least [pnlShiftPct] and 180 seconds have passed since its
    cooldown entry. *)
Definition pnlShiftClaim (params : Params) (h : gmap loc TriggerState) : Prop :=
  ∀ r h' s,
    call params h = (Returned r, h') →
    inputState params h = Some s →
    (pnl_shift ∈ firedNames r
     ↔ ge (mathAbs (pnlPctOfEquity (tick params) - lastLlmPnlPctOfEquity s)%float)
          (pnlShiftPct (cfg params)) = true
       ∧ ge (nowMs params
             - default 0%float (triggerCooldowns s !! pnl_shift))%float
            180000 = true).

(** The fingerprint as the specification has it. *)
Definition fingerprintClaim
    (entry : PositionHeartbeatJournal.PositionHeartbeatDecision) : Prop :=
  ∀ stored, ∃ artifact,
    last (PositionHeartbeatJournal.recordPositionHeartbeatDecision entry stored)
    = Some artifact
    ∧ PositionHeartbeatJournal.DecisionArtifact.fingerprint artifact
      = ("heartbeat:" ++ PositionHeartbeatJournal.symbol entry ++ ":"
         ++ PositionHeartbeatJournal.timestamp entry)%string.

Definition negativeThreshold : HeartbeatTriggerConfig :=
  {| pnlShiftPct := -1.5;
     approachingStopPct := 1.0;
     approachingTpPct := 1.0;
     liquidationProximityPct := 5.0;
     fundingSpike := 0.0001;
     volatilitySpikePct := 2.0;
     volatilitySpikeWindowTicks := 10;
     timeCeilingMinutes := 15;
     triggerCooldownSeconds := 180 |}.

Definition ethEntry : PositionHeartbeatJournal.PositionHeartbeatDecision :=
  {| PositionHeartbeatJournal.kind := "position_heartbeat";
     PositionHeartbeatJournal.symbol := "ETH";
     PositionHeartbeatJournal.timestamp := "2024-05-01T12:00:00.000Z";
     PositionHeartbeatJournal.triggers := ["time_ceiling"];
     PositionHeartbeatJournal.decision :=
       [("action", PositionHeartbeatJournal.JString "hold")];
     PositionHeartbeatJournal.outcome := PositionHeartbeatJournal.ok;
     PositionHeartbeatJournal.snapshot := None |}.

(** *** Settings out of range

    A window of 2.9 ticks, a ceiling of -3 minutes and a generic cooldown
    of 100000 seconds, on a buffer of three ticks. *)
Definition outOfRange : HeartbeatTriggerConfig :=
  {| pnlShiftPct := 1.5;
     approachingStopPct := 1.0;
     approachingTpPct := 1.0;
     liquidationProximityPct := 5.0;
     fundingSpike := 0.0001;
     volatilitySpikePct := 2.0;
     volatilitySpikeWindowTicks := 2.9;
     timeCeilingMinutes := -3;
     triggerCooldownSeconds := 100000 |}.

Definition outOfRangePoll : Params :=
  {| nowMs := tickMs 2; tick := ethLong 2 2080 None;
     buffer := [ethLong 0 2080 None; ethLong 1 2080 None; ethLong 2 2080 None];
     state := Some 1%positive;
     cfg := outOfRange; extra := None |}.

(** Settings that are not finite numbers, on a buffer of one tick. *)
Definition notFinite : HeartbeatTriggerConfig :=
  {| pnlShiftPct := 1.5;
     approachingStopPct := 1.0;
     approachingTpPct := 1.0;
     liquidationProximityPct := 5.0;
     fundingSpike := 0.0001;
     volatilitySpikePct := 2.0;
     volatilitySpikeWindowTicks := infinity;
     timeCeilingMinutes := nan;
     triggerCooldownSeconds := neg_infinity |}.

Definition notFinitePoll : Params :=
  {| nowMs := tickMs 0; tick := ethLong 0 2080 None;
     buffer := [ethLong 0 2080 None]; state := Some 1%positive;
     cfg := notFinite; extra := None |}.

End Scenarios.

(** ** More of the language's arithmetic *)

Module JsMath.

(** [Math.max] and [Math.min] of two numbers: NaN if either is NaN, and
    [+0] counts as larger than [-0]. *)
Definition mathMax (a b : num) : num :=
  if PrimFloat.is_nan a || PrimFloat.is_nan b then nan
  else if lt a b then b
  else if lt b a then a
  else if PrimFloat.get_sign a then b else a.

Definition mathMin (a b : num) : num :=
  if PrimFloat.is_nan a || PrimFloat.is_nan b then nan
  else if lt a b then a
  else if lt b a then b
  else if PrimFloat.get_sign a then a else b.

End JsMath.

(** ** Reading the journal: [listPositionHeartbeatDecisions] *)

Module PositionHeartbeatListing.

Import PositionHeartbeatJournal JsMath.

(** A row of the query: [{ payload?: string }]. *)
Record Row := { payload : option string }.

Record ListParams := {
  symbol : option string;
  limit : option num;
}.

(** Whether a parsed value is truthy. *)
Definition truthyJson (j : Json) : bool :=
  match j with
  | JNull => false
  | JBool b => b
  | JNumber x => negb (strictEq x 0 || PrimFloat.is_nan x)
  | JString s => negb (String.eqb s "")
  | JArray _ => true
  | JObject _ => true
  end.

(** [j.kind] and the like: the property [k] of a parsed value, which only
    an object can have; of a key written twice the last one counts. *)
Definition jsonField (j : Json) (k : string) : option Json :=
  match j with
  | JObject fields =>
      (λ found : nat * (string * Json), found.2.2)
        <$> list_find (λ kv, kv.1 = k) (reverse fields)
  | _ => None
  end.

Definition isHeartbeatKind (j : Json) : bool :=
  match jsonField j "kind" with
  | Some (JString s) => String.eqb s "position_heartbeat"
  | _ => false
  end.

(** The limit handed to the query. *)
Definition queryLimit (params : option ListParams) : num :=
  mathMin (mathMax (default 50%float (params ≫= limit)) 1) 500.

Section Listing.

(** The database and the parser are not part of the sources: the rows that
    [db.prepare(sql).all(symbol, symbol, limit)] returns, and what
    [JSON.parse] makes of a payload ([None] when it throws). *)
Variable queryAll : option string → option string → num → list (option Row).
Variable jsonParse : string → option Json.

(** The body of the loop: what a row adds to [out], if anything. *)
Definition parsedRow (row : option Row) : option Json :=
  match row ≫= payload with
  | None => None
  | Some text =>
      if String.eqb text "" then None
      else
        match jsonParse text with
        | None => None            (* ignore unparseable payloads *)
        | Some parsed =>
            if truthyJson parsed && isHeartbeatKind parsed then Some parsed
            else None
        end
  end.

Definition listPositionHeartbeatDecisions (params : option ListParams) :
    list Json :=
  let limit := queryLimit params in
  let symbol := params ≫= symbol in
  let rows := queryAll symbol symbol limit in
  omap parsedRow rows.

End Listing.

End PositionHeartbeatListing.

(** ** Variations of a call *)

Module Variations.

Import HeartbeatTriggers Scenarios.

(** The same parameters under another [triggerCooldownSeconds]. *)
Definition withCooldownSeconds (params : Params) (x : num) : Params :=
  {| nowMs := nowMs params; tick := tick params; buffer := buffer params;
     state := state params;
     cfg := {| pnlShiftPct := pnlShiftPct (cfg params);
               approachingStopPct := approachingStopPct (cfg params);
               approachingTpPct := approachingTpPct (cfg params);
               liquidationProximityPct := liquidationProximityPct (cfg params);
               fundingSpike := fundingSpike (cfg params);
               volatilitySpikePct := volatilitySpikePct (cfg params);
               volatilitySpikeWindowTicks := volatilitySpikeWindowTicks (cfg params);
               timeCeilingMinutes := timeCeilingMinutes (cfg params);
               triggerCooldownSeconds := x |};
     extra := extra params |}.

(** *** Polls of the ETH position *)

(** A poll at tick [i] on the state object 1, under the defaults. *)
Definition pollAt (i : nat) (t : PositionTick) (buf : list PositionTick) :
    Params :=
  {| nowMs := tickMs i; tick := t; buffer := buf; state := Some 1%positive;
     cfg := defaultConfig; extra := None |}.

(** The mark 10 above the stop, and on the stop. *)
Definition nearStop : Params :=
  pollAt 0 (ethLong 0 2060 (Some 2050%float)) [ethLong 0 2060 (Some 2050%float)].

Definition atStop : Params :=
  pollAt 0 (ethLong 0 2050 (Some 2050%float)) [ethLong 0 2050 (Some 2050%float)].

(** Funding turns negative after the advisor has seen it positive. *)
Definition afterPositiveFunding : TriggerState :=
  {| lastLlmCheckTimestamp := tickMs 0;
     lastLlmPnlPctOfEquity := 0;
     lastLlmMarkPrice := 2080;
     lastFundingRateSign := 1;
     triggerCooldowns := ∅ |}.

Definition fundingReversed : Params :=
  pollAt 1 (withFunding (-0.00005)) [withFunding (-0.00005)].

(** Nine ticks at 2000, then one at 2080. *)
Definition spiking : Params :=
  pollAt 9 (ethLong 9 2080 (Some 2050%float))
    (replicate 9 (ethLong 0 2000 (Some 2050%float))
     ++ [ethLong 9 2080 (Some 2050%float)]).

(** A poll whose clock reading is NaN. *)
Definition nanTime : Params :=
  {| nowMs := nan; tick := ethLong 0 2080 (Some 2050%float);
     buffer := [ethLong 0 2080 (Some 2050%float)]; state := Some 1%positive;
     cfg := defaultConfig; extra := None |}.

(** A poll that passes no state. *)
Definition stateless : Params :=
  {| nowMs := tickMs 0; tick := ethLong 0 2080 (Some 2050%float);
     buffer := [ethLong 0 2080 (Some 2050%float)]; state := None;
     cfg := defaultConfig; extra := None |}.

(** The poll on which the position first shows, and the one on which it
    has gone. *)
Definition justOpened : Params :=
  {| nowMs := tickMs 0; tick := ethLong 0 2080 (Some 2050%float);
     buffer := [ethLong 0 2080 (Some 2050%float)]; state := Some 1%positive;
     cfg := defaultConfig;
     extra := Some {| positionOpened := Some true;
                      positionClosed := Some false |} |}.

Definition justClosed : Params :=
  {| nowMs := tickMs 1; tick := ethLong 1 2080 (Some 2050%float);
     buffer := [ethLong 1 2080 (Some 2050%float)]; state := Some 1%positive;
     cfg := defaultConfig;
     extra := Some {| positionOpened := None; positionClosed := Some true |} |}.

(** A listing that asks for 1000 records of ETH. *)
Definition generous : option PositionHeartbeatListing.ListParams :=
  Some {| PositionHeartbeatListing.symbol := Some "ETH"%string;
          PositionHeartbeatListing.limit := Some 1000%float |}.

(** A stand-in for the database and for the parser: six rows, of which the
    first and the last carry the same heartbeat record, one is absent, one
    has no payload, one is a record of another kind and one does not
    parse. *)
Definition sampleRows (symbol1 symbol2 : option string) (limit : num) :
    list (option PositionHeartbeatListing.Row) :=
  [Some {| PositionHeartbeatListing.payload := Some "heartbeat"%string |};
   None;
   Some {| PositionHeartbeatListing.payload := None |};
   Some {| PositionHeartbeatListing.payload := Some "trade"%string |};
   Some {| PositionHeartbeatListing.payload := Some "garbage"%string |};
   Some {| PositionHeartbeatListing.payload := Some "heartbeat"%string |}].

Definition sampleRecord : PositionHeartbeatJournal.Json :=
  PositionHeartbeatJournal.JObject
    [("kind"%string, PositionHeartbeatJournal.JString "position_heartbeat");
     ("symbol"%string, PositionHeartbeatJournal.JString "ETH")].

Definition sampleParse (text : string) : option PositionHeartbeatJournal.Json :=
  if String.eqb text "heartbeat" then Some sampleRecord
  else if String.eqb text "trade"
       then Some (PositionHeartbeatJournal.JObject
                    [("kind"%string, PositionHeartbeatJournal.JString "trade")])
       else None.

End Variations.

(** * Properties *)

Import HeartbeatTriggers.

(** ** Numbers *)

Section Numbers.

Lemma clampInt_bounds (n : num) (lo hi : Z) :
  lo ≤ hi → lo ≤ clampInt n lo hi ≤ hi.
Proof.
  intros Hle. unfold clampInt.
  destruct (negb (isFinite n)); lia.
Qed.

Lemma clampInt_non_finite (n : num) (lo hi : Z) :
  isFinite n = false → clampInt n lo hi = lo.
Proof. intros Hn. unfold clampInt. by rewrite Hn. Qed.

Lemma clampInt_finite (n : num) (lo hi : Z) :
  isFinite n = true → clampInt n lo hi = Z.min hi (Z.max lo (truncZ n)).
Proof. intros Hn. unfold clampInt. by rewrite Hn. Qed.

(** What [clampInt] makes of a finite number: the bound on the side on
    which its integer part lies outside, the integer part otherwise. *)
Lemma clampInt_cases (n : num) (lo hi : Z) :
  lo ≤ hi → isFinite n = true →
  clampInt n lo hi
  = if truncZ n <? lo then lo else if hi <? truncZ n then hi else truncZ n.
Proof.
  intros Hle Hn. rewrite (clampInt_finite _ _ _ Hn).
  destruct (Z.ltb_spec (truncZ n) lo), (Z.ltb_spec hi (truncZ n)); lia.
Qed.

Lemma whole_number_table :
  Forall (λ a, Forall (λ b, isFinite (ofZ (300 * a + b)) = true
                            ∧ truncZ (ofZ (300 * a + b)) = 300 * a + b)
                 (seqZ 0 300))
    (seqZ 0 289).
Proof. apply (bool_decide_unpack _). by vm_compute. Qed.

(** A whole number of the range of the settings is a finite number whose
    integer part is the number itself. *)
Lemma truncZ_ofZ (z : Z) :
  0 ≤ z ≤ 86400 → isFinite (ofZ z) = true ∧ truncZ (ofZ z) = z.
Proof.
  intros Hz. pose proof whole_number_table as Ht.
  rewrite Forall_forall in Ht.
  specialize (Ht (z `div` 300)). rewrite elem_of_seqZ in Ht.
  pose proof (Z.div_pos z 300 ltac:(lia) ltac:(lia)).
  assert (z `div` 300 < 289) by (apply Z.div_lt_upper_bound; lia).
  specialize (Ht ltac:(lia)). rewrite Forall_forall in Ht.
  specialize (Ht (z `mod` 300)). rewrite elem_of_seqZ in Ht.
  pose proof (Z.mod_pos_bound z 300 ltac:(lia)).
  specialize (Ht ltac:(lia)).
  by rewrite <- (Z.div_mod z 300) in Ht by lia.
Qed.

(** [clampInt] keeps a whole number within the bounds. *)
Lemma clampInt_whole (z lo hi : Z) :
  0 ≤ lo → lo ≤ z ≤ hi → hi ≤ 86400 → clampInt (ofZ z) lo hi = z.
Proof.
  intros Hlo Hz Hhi. destruct (truncZ_ofZ z ltac:(lia)) as [Hf Ht].
  rewrite (clampInt_finite _ _ _ Hf), Ht. lia.
Qed.

(** A number is not both [> 0] and [=== 0]. *)
Lemma gt_zero_not_eq_zero (x : num) :
  gt x 0 = true → strictEq x 0 = false.
Proof.
  unfold gt, strictEq. rewrite FloatAxioms.ltb_spec, FloatAxioms.eqb_spec.
  change (Prim2SF 0) with (S754_zero false).
  destruct (Prim2SF x) as [[]|[]| |[] m e]; cbn; congruence.
Qed.

End Numbers.

(** ** The store and the monad *)

Section Monad.

Lemma bind_returned {A B} (c : M A) (k : A → M B) (m m' : Machine) (a : A) :
  c m = (Returned a, m') → (c ≫= k) m = k a m'.
Proof. intros Hc. unfold mbind, M_bind. by rewrite Hc. Qed.

Lemma bind_thrown {A B} (c : M A) (k : A → M B) (m m' : Machine) :
  c m = (TypeError, m') → (c ≫= k) m = (TypeError, m').
Proof. intros Hc. unfold mbind, M_bind. by rewrite Hc. Qed.

End Monad.

(** ** The evaluator is the fold of [recordStep] over [candidates] *)

Section Refinement.

Context (l : loc) (h : gmap loc TriggerState) (now : num)
        (cf : HeartbeatTriggerConfig).

Lemma sameAdvisorFields_refl s : sameAdvisorFields s s.
Proof. by repeat split. Qed.

Lemma recordStep_fields acc c :
  sameAdvisorFields (recordStep now cf acc c).2 acc.2.
Proof.
  unfold recordStep. destruct (canFire _ _ _ _); cbn; by repeat split.
Qed.

Lemma runRecords_cons c cs acc :
  runRecords now cf (c :: cs) acc = runRecords now cf cs (recordStep now cf acc c).
Proof. reflexivity. Qed.

Lemma sameAdvisorFields_trans s1 s2 s3 :
  sameAdvisorFields s1 s2 → sameAdvisorFields s2 s3 → sameAdvisorFields s1 s3.
Proof.
  intros (H1 & H2 & H3 & H4) (G1 & G2 & G3 & G4). repeat split; congruence.
Qed.

Lemma runRecords_fields cs acc :
  sameAdvisorFields (runRecords now cf cs acc).2 acc.2.
Proof.
  revert acc. induction cs as [|c cs IH]; intros acc.
  - apply sameAdvisorFields_refl.
  - rewrite runRecords_cons.
    eapply sameAdvisorFields_trans; [apply IH | apply recordStep_fields].
Qed.

Lemma runRecords_app cs1 cs2 acc :
  runRecords now cf (cs1 ++ cs2) acc
  = runRecords now cf cs2 (runRecords now cf cs1 acc).
Proof. apply fold_left_app. Qed.

Lemma cellOf_lookup acc : heap (cellOf l h acc) !! l = Some acc.2.
Proof. cbn. apply lookup_insert_eq. Qed.

Lemma runsTo_elim {A} s (res : _ → A) body cs :
  runsTo l h now cf s body cs res →
  ∀ acc, sameAdvisorFields acc.2 s →
    body (cellOf l h acc)
    = (Returned (res (runRecords now cf cs acc)),
       cellOf l h (runRecords now cf cs acc)).
Proof. done. Qed.

Lemma runsTo_record n d s :
  runsTo l h now cf s (record l now cf n d) [(n, d)] (λ _, tt).
Proof.
  intros acc _. unfold record.
  erewrite bind_returned; last first.
  { unfold deref. by rewrite cellOf_lookup. }
  unfold runRecords, recordStep; cbn [fold_left fst snd].
  destruct (canFire n now (cooldownMs cf n) acc.2); cbn [negb].
  - unfold mbind, M_bind, push, assignCooldown, cellOf; cbn.
    rewrite lookup_insert_eq, insert_insert_eq. done.
  - done.
Qed.

Lemma runsTo_skip s : runsTo l h now cf s (mret tt) [] (λ _, tt).
Proof. by intros acc _. Qed.

Lemma runsTo_when c n d s :
  runsTo l h now cf s (when c (record l now cf n d)) (candidate c n d) (λ _, tt).
Proof.
  destruct c; [apply runsTo_record | apply runsTo_skip].
Qed.

Lemma runsTo_seq {A} (b1 : M unit) (b2 : M A) cs1 cs2 res s :
  runsTo l h now cf s b1 cs1 (λ _, tt) →
  runsTo l h now cf s b2 cs2 res →
  runsTo l h now cf s (b1 ;; b2) (cs1 ++ cs2) res.
Proof.
  intros H1 H2 acc Hacc.
  erewrite bind_returned by (by apply H1).
  rewrite runRecords_app. apply H2.
  eapply sameAdvisorFields_trans; [apply runRecords_fields | done].
Qed.

Lemma runsTo_deref {A} (k : TriggerState → M A) cs res s :
  (∀ s', sameAdvisorFields s' s → runsTo l h now cf s (k s') cs res) →
  runsTo l h now cf s (deref l ≫= k) cs res.
Proof.
  intros Hk acc Hacc.
  erewrite bind_returned; last first.
  { unfold deref. by rewrite cellOf_lookup. }
  by apply Hk.
Qed.

Lemma runsTo_result s :
  runsTo l h now cf s
    (fired ← getFired; mret {| fired := fired; nextState := l |}) []
    (λ acc, {| fired := acc.1; nextState := l |}).
Proof. by intros acc _. Qed.

End Refinement.

Section Evaluate.

Lemma when_andb (c1 c2 : bool) (body : M unit) :
  when (c1 && c2) body = if c1 then when c2 body else mret tt.
Proof. by destruct c1. Qed.

Lemma candidate_andb (c1 c2 : bool) n d :
  candidate (c1 && c2) n d = if c1 then candidate c2 n d else [].
Proof. by destruct c1. Qed.

(** The base tick of the volatility window exists whenever the guard
    [buffer.length >= window] holds. *)
Lemma volatility_base_in_bounds (buffer : list PositionTick) (x : num) :
  let window := clampInt x 1 10000 in
  (Z.of_nat (length buffer) >=? window) = true →
  is_Some (arrayGet buffer (Z.of_nat (length buffer) - window)).
Proof.
  intros window Hguard.
  pose proof (clampInt_bounds x 1 10000 ltac:(lia)) as Hw. fold window in Hw.
  apply Z.geb_le in Hguard. unfold arrayGet.
  destruct (Z.ltb_spec (Z.of_nat (length buffer) - window) 0) as [?|_]; [lia|].
  apply lookup_lt_is_Some. lia.
Qed.

Lemma evaluate_runsTo (params : Params) (l : loc) (h : gmap loc TriggerState)
    (s : TriggerState) :
  state params = Some l →
  runsTo l h (nowMs params) (cfg params) s (evaluateHeartbeatTriggers params)
    (candidates params s) (λ acc, {| fired := acc.1; nextState := l |}).
Proof.
  intros Hstate. unfold evaluateHeartbeatTriggers, candidates. rewrite Hstate.
  rewrite <- (app_nil_r (candidate (timeCeilingFirst _ _) _ _)).
  cbv zeta. intros acc Hacc.
  erewrite bind_returned by reflexivity. revert acc Hacc.
  refine (runsTo_elim l h _ _ s (λ acc, {| fired := acc.1; nextState := l |}) _ _ _).
  do 3 (apply runsTo_seq; [apply runsTo_when|]).
  apply runsTo_deref; intros s1 (_ & -> & _ & _).
  apply runsTo_seq; [apply runsTo_when|].
  apply runsTo_seq.
  { destruct (stopLossPrice (tick params)); [apply runsTo_when | apply runsTo_skip]. }
  apply runsTo_seq.
  { destruct (takeProfitPrice (tick params)); [apply runsTo_when | apply runsTo_skip]. }
  apply runsTo_seq; [apply runsTo_when|].
  apply runsTo_deref; intros s2 (_ & _ & _ & ->).
  do 2 (apply runsTo_seq; [apply runsTo_when|]).
  apply runsTo_seq.
  { destruct (_ >=? _) eqn:Hguard; [|apply runsTo_skip].
    destruct (volatility_base_in_bounds _ _ Hguard) as [base ->].
    apply runsTo_when. }
  apply runsTo_deref; intros s3 (-> & _ & _ & _).
  apply runsTo_seq.
  { unfold timeCeilingAged. rewrite candidate_andb.
    destruct (_ && _); [apply runsTo_when | apply runsTo_skip]. }
  apply runsTo_deref; intros s4 (-> & _ & _ & _).
  apply runsTo_seq; [apply runsTo_when|].
  apply runsTo_result.
Qed.

End Evaluate.

(** ** Recording a list of candidates *)

Section Records.

Context (now : num) (cf : HeartbeatTriggerConfig).
Implicit Types (cs : list (HeartbeatTriggerName * list Piece)).
Implicit Types (s : TriggerState) (n : HeartbeatTriggerName).

Lemma runRecords_acc cs F s :
  runRecords now cf cs (F, s)
  = (F ++ (runRecords now cf cs ([], s)).1, (runRecords now cf cs ([], s)).2).
Proof.
  revert F s. induction cs as [|c cs IH]; intros F s.
  - cbn. by rewrite app_nil_r.
  - rewrite !runRecords_cons. unfold recordStep; cbn [fst snd].
    destruct (canFire _ _ _ s).
    + rewrite (IH (F ++ _)), (IH ([] ++ _)). cbn [fst snd].
      by rewrite <- app_assoc.
    + apply IH.
Qed.

Lemma recorded_nil s : recorded now cf [] s = [].
Proof. reflexivity. Qed.

Lemma recorded_cons c cs s :
  recorded now cf (c :: cs) s
  = if canFire c.1 now (cooldownMs cf c.1) s
    then c.1 :: recorded now cf cs (setCooldown s c.1 now)
    else recorded now cf cs s.
Proof.
  unfold recorded. rewrite runRecords_cons. unfold recordStep; cbn [fst snd].
  destruct (canFire _ _ _ s); [|done].
  rewrite runRecords_acc. cbn [fst snd]. by rewrite fmap_app.
Qed.

Lemma stateAfter_cons c cs s :
  stateAfter now cf (c :: cs) s
  = if canFire c.1 now (cooldownMs cf c.1) s
    then stateAfter now cf cs (setCooldown s c.1 now)
    else stateAfter now cf cs s.
Proof.
  unfold stateAfter. rewrite runRecords_cons. unfold recordStep; cbn [fst snd].
  destruct (canFire _ _ _ s); [|done].
  by rewrite runRecords_acc.
Qed.

(** The recorded names are a subsequence of the candidates' names. *)
Lemma recorded_sublist cs s : sublist (recorded now cf cs s) cs.*1.
Proof.
  revert s. induction cs as [|c cs IH]; intros s.
  - constructor.
  - rewrite recorded_cons, fmap_cons.
    destruct (canFire _ _ _ s); [apply sublist_skip | apply sublist_cons]; apply IH.
Qed.

Lemma canFire_ext n cd s1 s2 :
  triggerCooldowns s1 !! n = triggerCooldowns s2 !! n →
  canFire n now cd s1 = canFire n now cd s2.
Proof. intros Heq. unfold canFire. by rewrite Heq. Qed.

Lemma canFire_setCooldown_ne n n' cd s v :
  n ≠ n' → canFire n now cd (setCooldown s n' v) = canFire n now cd s.
Proof.
  intros Hne. apply canFire_ext. cbn. by rewrite lookup_insert_ne.
Qed.

(** A candidate is recorded exactly when its cooldown allows it on the
    state the call started from. *)
Lemma elem_of_recorded cs s n :
  n ∈ recorded now cf cs s
  ↔ n ∈ cs.*1 ∧ canFire n now (cooldownMs cf n) s = true.
Proof.
  revert s. induction cs as [|c cs IH]; intros s.
  - rewrite recorded_nil, fmap_nil. set_solver.
  - rewrite recorded_cons, fmap_cons.
    destruct (canFire c.1 now (cooldownMs cf c.1) s) eqn:Hc.
    + rewrite !elem_of_cons, IH.
      destruct (decide (n = c.1)) as [->|Hne]; [naive_solver|].
      rewrite canFire_setCooldown_ne by done. naive_solver.
    + rewrite elem_of_cons, IH.
      destruct (decide (n = c.1)) as [->|Hne]; [|naive_solver].
      split; [naive_solver|]. intros [_ ?]; congruence.
Qed.

(** The cooldown table afterwards: [now] for the recorded names, the old
    entry for every other name. *)
Lemma stateAfter_cooldowns cs s n :
  triggerCooldowns (stateAfter now cf cs s) !! n
  = if decide (n ∈ recorded now cf cs s) then Some now
    else triggerCooldowns s !! n.
Proof.
  revert s. induction cs as [|c cs IH]; intros s.
  - unfold stateAfter. cbn. by rewrite decide_False by set_solver.
  - rewrite stateAfter_cons, recorded_cons.
    destruct (canFire c.1 now (cooldownMs cf c.1) s) eqn:Hc; [|apply IH].
    rewrite IH. destruct (decide (n = c.1)) as [->|Hne].
    + rewrite (decide_True (P := _ ∈ _ :: _)) by set_solver.
      case_decide; [done|]. cbn. by rewrite lookup_insert_eq.
    + cbn. rewrite lookup_insert_ne by done.
      repeat case_decide; set_solver.
Qed.

Lemma filter_canFire_setCooldown (ns : list HeartbeatTriggerName) s n' v :
  n' ∉ ns →
  filter (λ n, canFire n now (cooldownMs cf n) (setCooldown s n' v) = true) ns
  = filter (λ n, canFire n now (cooldownMs cf n) s = true) ns.
Proof.
  induction ns as [|n ns IH]; intros Hn'; [done|].
  apply not_elem_of_cons in Hn' as [Hne Hn'].
  rewrite !filter_cons, canFire_setCooldown_ne, IH by done. done.
Qed.

(** When no name occurs twice among the candidates, the recorded names
    are those whose cooldown allows them on the starting state. *)
Lemma recorded_filter cs s :
  NoDup cs.*1 →
  recorded now cf cs s
  = filter (λ n, canFire n now (cooldownMs cf n) s = true) cs.*1.
Proof.
  revert s. induction cs as [|c cs IH]; intros s Hnd; [done|].
  rewrite fmap_cons in Hnd. apply NoDup_cons in Hnd as [Hc Hnd].
  rewrite recorded_cons, fmap_cons, filter_cons.
  destruct (canFire c.1 now (cooldownMs cf c.1) s) eqn:Hfire.
  - rewrite decide_True by done.
    by rewrite IH, filter_canFire_setCooldown.
  - rewrite decide_False by done. by apply IH.
Qed.

Lemma stateAfter_fields cs s : sameAdvisorFields (stateAfter now cf cs s) s.
Proof. apply (runRecords_fields now cf cs ([], s)). Qed.

End Records.

(** ** What a call returns *)

Section Call.

Lemma call_some (params : Params) (l : loc) (h : gmap loc TriggerState)
    (s : TriggerState) :
  state params = Some l → h !! l = Some s →
  call params h
  = (Returned {| fired := (outcomeOf params s).1; nextState := l |},
     <[l := (outcomeOf params s).2]> h).
Proof.
  intros Hstate Hl. unfold call.
  replace {| heap := h; firedArr := [] |} with (cellOf l h ([], s)).
  2:{ unfold cellOf; cbn. by rewrite insert_id. }
  by rewrite (evaluate_runsTo params l h s Hstate ([], s)
                (sameAdvisorFields_refl _)).
Qed.

Lemma deref_dangling (l : loc) (m : Machine) :
  heap m !! l = None → deref l m = (TypeError, m).
Proof. intros Hl. unfold deref. by rewrite Hl. Qed.

Lemma record_dangling (l : loc) now cf n d (m : Machine) :
  heap m !! l = None → record l now cf n d m = (TypeError, m).
Proof.
  intros Hl. unfold record. by apply bind_thrown, deref_dangling.
Qed.

(** A reference always denotes an object; on a store without one at
    [params.state] the embedding stops with an error. *)
Lemma call_dangling (params : Params) (l : loc) (h : gmap loc TriggerState) :
  state params = Some l → h !! l = None → (call params h).1 = TypeError.
Proof.
  intros Hstate Hl. unfold call, evaluateHeartbeatTriggers. rewrite Hstate.
  erewrite bind_returned by reflexivity.
  set (m := {| heap := h; firedArr := [] |}).
  assert (Hm : heap m !! l = None) by done.
  destruct (truthy (extra params ≫= positionOpened)); cbn [when];
    [ by erewrite bind_thrown by (by apply record_dangling)
    | erewrite bind_returned by reflexivity ].
  destruct (truthy (extra params ≫= positionClosed)); cbn [when];
    [ by erewrite bind_thrown by (by apply record_dangling)
    | erewrite bind_returned by reflexivity ].
  destruct (bool_decide (stopLossPrice (tick params) = None)); cbn [when];
    [ by erewrite bind_thrown by (by apply record_dangling)
    | erewrite bind_returned by reflexivity ].
  by erewrite bind_thrown by (by apply deref_dangling).
Qed.

Lemma call_none (params : Params) (h : gmap loc TriggerState) :
  state params = None →
  let l := fresh (dom h) in
  let s := defaultTriggerState (nowMs params) in
  call params h
  = (Returned {| fired := (outcomeOf (withState params l) s).1; nextState := l |},
     <[l := (outcomeOf (withState params l) s).2]> h).
Proof.
  intros Hstate l s. unfold call.
  transitivity
    (let '(r, m) := evaluateHeartbeatTriggers (withState params l)
                      (cellOf l h ([], s)) in (r, heap m)).
  { unfold evaluateHeartbeatTriggers. rewrite Hstate. reflexivity. }
  rewrite (evaluate_runsTo (withState params l) l h s eq_refl ([], s)
             (sameAdvisorFields_refl _)).
  reflexivity.
Qed.

Lemma candidates_withState params l s :
  candidates (withState params l) s = candidates params s.
Proof. reflexivity. Qed.

Lemma outcomeOf_withState params l s :
  outcomeOf (withState params l) s = outcomeOf params s.
Proof. reflexivity. Qed.

(** Every call that returns did so on some input state [s], and is
    described by [outcomeOf] on it. *)
Lemma call_inv (params : Params) (h h' : gmap loc TriggerState) (r : Result) :
  call params h = (Returned r, h') →
  ∃ s, inputState params h = Some s
       ∧ fired r = (outcomeOf params s).1
       ∧ h' = <[nextState r := (outcomeOf params s).2]> h
       ∧ (∀ l, state params = Some l → nextState r = l).
Proof.
  intros Hcall. unfold inputState.
  destruct (state params) as [l|] eqn:Hstate.
  - destruct (h !! l) as [s|] eqn:Hl.
    + rewrite (call_some params l h s Hstate Hl) in Hcall.
      injection Hcall as <- <-. exists s. cbn. repeat split; congruence.
    + pose proof (call_dangling params l h Hstate Hl) as Hd.
      rewrite Hcall in Hd. discriminate.
  - rewrite (call_none params h Hstate) in Hcall. cbv zeta in Hcall.
    rewrite outcomeOf_withState in Hcall.
    injection Hcall as <- <-. eexists. cbn. repeat split; congruence.
Qed.

Lemma call_returns (params : Params) (h : gmap loc TriggerState) :
  (∀ l, state params = Some l → is_Some (h !! l)) →
  ∃ r h', call params h = (Returned r, h').
Proof.
  intros Hwf. destruct (state params) as [l|] eqn:Hstate.
  - destruct (Hwf l eq_refl) as [s Hl].
    rewrite (call_some params l h s Hstate Hl). eauto.
  - rewrite (call_none params h Hstate). eauto.
Qed.

End Call.

(** ** The order of evaluation *)

Section Order.

Lemma candidate_names c n d :
  (candidate c n d).*1 = if c then [n] else [].
Proof. by destruct c. Qed.

(** The two [time_ceiling] branches exclude each other. *)
Lemma timeCeiling_exclusive now cf s :
  timeCeilingAged now cf s = true → timeCeilingFirst cf s = false.
Proof.
  unfold timeCeilingAged, timeCeilingFirst.
  intros [[_ Hgt]%andb_prop _]%andb_prop.
  rewrite (gt_zero_not_eq_zero _ Hgt). apply andb_false_r.
Qed.

Lemma filter_cons_bool {A} (f : A → bool) (x : A) (l : list A) :
  filter (λ y, f y = true) (x :: l)
  = (if f x then [x] else []) ++ filter (λ y, f y = true) l.
Proof. rewrite filter_cons. destruct (f x); by case_decide. Qed.

(** The candidates of a call are the names of the catalog whose condition
    holds, in the order of evaluation. *)
Lemma candidates_names (params : Params) (s : TriggerState) :
  (candidates params s).*1
  = filter (λ n, condition params s n = true) evaluationOrder.
Proof.
  unfold candidates, evaluationOrder. cbv zeta.
  rewrite !fmap_app, !filter_cons_bool, !candidate_names, filter_nil, app_nil_r.
  repeat f_equal.
  - cbn [condition]. by destruct (stopLossPrice (tick params));
      rewrite ?candidate_names.
  - cbn [condition]. by destruct (takeProfitPrice (tick params));
      rewrite ?candidate_names.
  - cbn [condition]. cbv zeta. destruct (_ >=? _); [|done].
    by destruct (arrayGet _ _); rewrite ?candidate_names.
  - cbn [condition]. destruct (timeCeilingAged _ _ s) eqn:Haged.
    + by rewrite (timeCeiling_exclusive _ _ _ Haged).
    + by destruct (timeCeilingFirst _ s).
Qed.

Lemma candidates_sublist (params : Params) (s : TriggerState) :
  sublist (candidates params s).*1 evaluationOrder.
Proof. rewrite candidates_names. apply sublist_filter. Qed.

Lemma elem_of_evaluationOrder n : n ∈ evaluationOrder.
Proof. destruct n; unfold evaluationOrder; set_solver. Qed.

Lemma elem_of_candidates (params : Params) (s : TriggerState) n :
  n ∈ (candidates params s).*1 ↔ condition params s n = true.
Proof.
  rewrite candidates_names, list_elem_of_filter.
  pose proof (elem_of_evaluationOrder n). naive_solver.
Qed.

End Order.

(** ** Properties of a call *)

Section Claims.

Lemma firedNames_recorded params s r :
  fired r = (outcomeOf params s).1 →
  firedNames r = recorded (nowMs params) (cfg params) (candidates params s) s.
Proof. intros Hf. unfold firedNames, recorded. by rewrite Hf. Qed.

(** A trigger fires in a call exactly when its condition holds and its
    cooldown allows it, both on the state the call started from. *)
Lemma fired_iff_condition (params : Params) (s : TriggerState) (r : Result)
    (n : HeartbeatTriggerName) :
  fired r = (outcomeOf params s).1 →
  n ∈ firedNames r
  ↔ condition params s n = true
    ∧ canFire n (nowMs params) (cooldownMs (cfg params) n) s = true.
Proof.
  intros Hf.
  by rewrite (firedNames_recorded _ _ _ Hf), elem_of_recorded, elem_of_candidates.
Qed.

(** The array [fired] of a call, by name: the names of the catalog whose
    condition holds and whose cooldown allows them, in the order of
    evaluation. *)
Lemma firedNames_catalog (params : Params) (s : TriggerState) (r : Result) :
  fired r = (outcomeOf params s).1 →
  firedNames r
  = filter (λ n, condition params s n = true
                 ∧ canFire n (nowMs params) (cooldownMs (cfg params) n) s = true)
      evaluationOrder.
Proof.
  intros Hf. rewrite (firedNames_recorded _ _ _ Hf), recorded_filter.
  - rewrite candidates_names, list_filter_filter.
    apply list_filter_iff. intros n. tauto.
  - rewrite candidates_names. apply NoDup_filter.
    by apply (bool_decide_unpack (NoDup evaluationOrder)).
Qed.

Lemma cooldownMs_table cf n :
  DEFAULT_COOLDOWNS_MS n = Some (cooldownMs cf n).
Proof. by destruct n. Qed.

Lemma gt_zero_not_le_zero (x : num) : gt x 0 = true → le x 0 = false.
Proof.
  unfold gt, le. rewrite FloatAxioms.ltb_spec, FloatAxioms.leb_spec.
  change (Prim2SF 0) with (S754_zero false).
  destruct (Prim2SF x) as [[]|[]| |[] m e]; cbn; congruence.
Qed.

Lemma canFire_elapsed n now cd s :
  gt cd 0 = true → canFire n now cd s = true →
  ge (now - default 0%float (triggerCooldowns s !! n))%float cd = true.
Proof.
  intros Hpos. unfold canFire. by rewrite (gt_zero_not_le_zero _ Hpos).
Qed.

(** C10. In the array [fired] of a call each trigger name occurs at most
    once, and the names occur in the order in which the evaluator examines
    the triggers: position_opened, position_closed, stop_missing, pnl_shift,
    approaching_stop, approaching_tp, liquidation_proximity, funding_flip,
    funding_spike, volatility_spike, time_ceiling. *)
Theorem fired_once_in_order (params : Params) (h h' : gmap loc TriggerState)
    (r : Result) :
  call params h = (Returned r, h') →
  NoDup (firedNames r) ∧ sublist (firedNames r) evaluationOrder.
Proof.
  intros (s & _ & Hf & _)%call_inv.
  assert (Hsub : sublist (firedNames r) evaluationOrder).
  { rewrite (firedNames_recorded _ _ _ Hf).
    etrans; [apply recorded_sublist | apply candidates_sublist]. }
  split; [|done].
  eapply sublist_NoDup; [|done].
  by apply (bool_decide_unpack (NoDup evaluationOrder)).
Qed.

(** C6. A call sets the cooldown entry of exactly the names in its array
    [fired] to [nowMs] and keeps every other entry; it leaves the four
    advisor fields of the state, and every other object, as they were. *)
Theorem cooldowns_updated_iff_fired (params : Params)
    (h h' : gmap loc TriggerState) (r : Result) :
  call params h = (Returned r, h') →
  ∃ s s',
    inputState params h = Some s
    ∧ h' !! nextState r = Some s'
    ∧ (∀ n, triggerCooldowns s' !! n
            = if decide (n ∈ firedNames r) then Some (nowMs params)
              else triggerCooldowns s !! n)
    ∧ lastLlmCheckTimestamp s' = lastLlmCheckTimestamp s
    ∧ lastLlmPnlPctOfEquity s' = lastLlmPnlPctOfEquity s
    ∧ lastLlmMarkPrice s' = lastLlmMarkPrice s
    ∧ lastFundingRateSign s' = lastFundingRateSign s
    ∧ (∀ l', l' ≠ nextState r → h' !! l' = h !! l').
Proof.
  intros (s & Hin & Hf & -> & _)%call_inv.
  exists s, (outcomeOf params s).2.
  split; [done|]. split; [apply lookup_insert_eq|].
  split.
  { intros n. rewrite (firedNames_recorded _ _ _ Hf). apply stateAfter_cooldowns. }
  destruct (stateAfter_fields (nowMs params) (cfg params)
              (candidates params s) s) as (H1 & H2 & H3 & H4).
  repeat split; try done.
  intros l' Hne. by rewrite lookup_insert_ne.
Qed.

(** C9. The evaluator returns on every input, and the three integer
    settings are clamped: [volatilitySpikeWindowTicks] and
    [timeCeilingMinutes] into [1, 10000], [triggerCooldownSeconds] into
    [0, 86400]. A non-finite setting becomes the minimum; a finite one
    becomes its integer part when that is within the bounds (so a whole
    number within the bounds is kept), the minimum when it is below and
    the maximum when it is above. The window is therefore at least 1, and
    the base tick [buffer[buffer.length - window]] exists whenever the
    guard [buffer.length >= window] holds. *)
Theorem evaluate_total (params : Params) (h : gmap loc TriggerState) :
  (∀ l, state params = Some l → is_Some (h !! l)) →
  let cf := cfg params in
  let window := clampInt (volatilitySpikeWindowTicks cf) 1 10000 in
  let ceiling := clampInt (timeCeilingMinutes cf) 1 10000 in
  let seconds := clampInt (triggerCooldownSeconds cf) 0 86400 in
  (∃ r h', call params h = (Returned r, h'))
  ∧ 1 ≤ window ≤ 10000 ∧ 1 ≤ ceiling ≤ 10000 ∧ 0 ≤ seconds ≤ 86400
  ∧ (isFinite (volatilitySpikeWindowTicks cf) = false → window = 1)
  ∧ (isFinite (timeCeilingMinutes cf) = false → ceiling = 1)
  ∧ (isFinite (triggerCooldownSeconds cf) = false → seconds = 0)
  ∧ ((Z.of_nat (length (buffer params)) >=? window) = true →
     ∃ base, arrayGet (buffer params) (Z.of_nat (length (buffer params)) - window)
             = Some base
             ∧ 0 ≤ Z.of_nat (length (buffer params)) - window
               < Z.of_nat (length (buffer params)))
  ∧ (isFinite (volatilitySpikeWindowTicks cf) = true →
     window = if truncZ (volatilitySpikeWindowTicks cf) <? 1 then 1
              else if 10000 <? truncZ (volatilitySpikeWindowTicks cf) then 10000
              else truncZ (volatilitySpikeWindowTicks cf))
  ∧ (isFinite (timeCeilingMinutes cf) = true →
     ceiling = if truncZ (timeCeilingMinutes cf) <? 1 then 1
               else if 10000 <? truncZ (timeCeilingMinutes cf) then 10000
               else truncZ (timeCeilingMinutes cf))
  ∧ (isFinite (triggerCooldownSeconds cf) = true →
     seconds = if truncZ (triggerCooldownSeconds cf) <? 0 then 0
               else if 86400 <? truncZ (triggerCooldownSeconds cf) then 86400
               else truncZ (triggerCooldownSeconds cf))
  ∧ (∀ z, 1 ≤ z ≤ 10000 →
          volatilitySpikeWindowTicks cf = ofZ z → window = z)
  ∧ (∀ z, 1 ≤ z ≤ 10000 → timeCeilingMinutes cf = ofZ z → ceiling = z)
  ∧ (∀ z, 0 ≤ z ≤ 86400 → triggerCooldownSeconds cf = ofZ z → seconds = z).
Proof.
  intros Hwf cf window ceiling seconds.
  split; [by apply call_returns|].
  split; [apply clampInt_bounds; lia|].
  split; [apply clampInt_bounds; lia|].
  split; [apply clampInt_bounds; lia|].
  split; [apply clampInt_non_finite|].
  split; [apply clampInt_non_finite|].
  split; [apply clampInt_non_finite|].
  split.
  { intros Hguard.
    destruct (volatility_base_in_bounds _ _ Hguard) as [base Hbase].
    exists base. split; [done|].
    pose proof (clampInt_bounds (volatilitySpikeWindowTicks cf) 1 10000
                  ltac:(lia)) as Hw.
    apply Z.geb_le in Hguard. fold window in Hw. lia. }
  split; [apply clampInt_cases; lia|].
  split; [apply clampInt_cases; lia|].
  split; [apply clampInt_cases; lia|].
  split; [|split].
  - intros z Hz Heq. unfold window. rewrite Heq. apply clampInt_whole; lia.
  - intros z Hz Heq. unfold ceiling. rewrite Heq. apply clampInt_whole; lia.
  - intros z Hz Heq. unfold seconds. rewrite Heq. apply clampInt_whole; lia.
Qed.

Lemma quietly_entry l n h h' s v :
  quietly l n h h' →
  h !! l = Some s → triggerCooldowns s !! n = v →
  ∃ s', h' !! l = Some s' ∧ triggerCooldowns s' !! n = v.
Proof.
  intros Hq. revert s. induction Hq as [h|p h r h' h'' Hst Hcall Hn _ IH
                                       |h h' h'' Hk _ IH]; intros s Hl Hv.
  - eauto.
  - apply call_inv in Hcall as (s0 & Hin & Hf & -> & Hnext).
    rewrite (Hnext l Hst) in *. unfold inputState in Hin.
    rewrite Hst, Hl in Hin. injection Hin as <-.
    eapply IH; [apply lookup_insert_eq|].
    change (outcomeOf p s).2
      with (stateAfter (nowMs p) (cfg p) (candidates p s) s).
    rewrite stateAfter_cooldowns, decide_False; [done|].
    by rewrite <- (firedNames_recorded _ _ _ Hf).
  - destruct Hk as (s1 & s2 & H1 & H2 & Heq).
    rewrite Hl in H1. injection H1 as <-.
    eapply IH; [done|]. by rewrite Heq.
Qed.

(** C2. A trigger with a positive cooldown fires in a call only if [nowMs]
    minus its cooldown entry (0 if absent) is at least the cooldown, and
    firing sets the entry to [nowMs]. Hence in a sequence of calls on the
    same state object two consecutive firings of such a trigger are at
    least its cooldown apart. The cooldown is 0 for time_ceiling,
    position_opened and position_closed and positive for the other names. *)
Theorem cooldown_discipline (n : HeartbeatTriggerName)
    (p1 p2 : Params) (h0 h1 h2 h3 : gmap loc TriggerState) (r1 r2 : Result)
    (s0 : TriggerState) :
  inputState p1 h0 = Some s0 →
  call p1 h0 = (Returned r1, h1) →
  n ∈ firedNames r1 →
  (gt (cooldownMs (cfg p1) n) 0 = true →
   ge (nowMs p1 - default 0%float (triggerCooldowns s0 !! n))%float
      (cooldownMs (cfg p1) n) = true)
  ∧ (∃ s1, h1 !! nextState r1 = Some s1
           ∧ triggerCooldowns s1 !! n = Some (nowMs p1))
  ∧ (quietly (nextState r1) n h1 h2 →
     state p2 = Some (nextState r1) →
     call p2 h2 = (Returned r2, h3) →
     n ∈ firedNames r2 →
     gt (cooldownMs (cfg p2) n) 0 = true →
     ge (nowMs p2 - nowMs p1)%float (cooldownMs (cfg p2) n) = true)
  ∧ (gt (cooldownMs (cfg p1) n) 0 = false
     ↔ n = time_ceiling ∨ n = position_opened ∨ n = position_closed).
Proof.
  intros Hin0 Hcall1 Hn1.
  apply call_inv in Hcall1 as (s & Hin & Hf & -> & _).
  rewrite Hin0 in Hin. injection Hin as <-.
  rewrite (firedNames_recorded _ _ _ Hf) in Hn1.
  pose proof Hn1 as [_ Hcan]%elem_of_recorded.
  assert (Hentry :
    triggerCooldowns (outcomeOf p1 s0).2 !! n = Some (nowMs p1)).
  { change (outcomeOf p1 s0).2
      with (stateAfter (nowMs p1) (cfg p1) (candidates p1 s0) s0).
    by rewrite stateAfter_cooldowns, decide_True. }
  split; [intros Hpos; by apply canFire_elapsed|].
  split; [eexists; split; [apply lookup_insert_eq | done]|].
  split.
  - intros Hq Hst2 Hcall2 Hn2 Hpos.
    destruct (quietly_entry _ _ _ _ _ _ Hq (lookup_insert_eq _ _ _) Hentry)
      as (s2 & Hl2 & Hv2).
    apply call_inv in Hcall2 as (s2' & Hin2 & Hf2 & _ & _).
    unfold inputState in Hin2. rewrite Hst2, Hl2 in Hin2. injection Hin2 as <-.
    rewrite (firedNames_recorded _ _ _ Hf2) in Hn2.
    apply elem_of_recorded in Hn2 as [_ Hcan2].
    apply (canFire_elapsed _ _ _ _ Hpos) in Hcan2. by rewrite Hv2 in Hcan2.
  - destruct n; cbn; split; intros H; try done; naive_solver.
Qed.

End Claims.

(** ** The journal *)

Section Journal.

Import PositionHeartbeatJournal.

(** C8, as the code has it. The artifact that [recordPositionHeartbeatDecision]
    hands to the store carries the fingerprint [symbol + ":" + timestamp];
    the word "heartbeat" is its [source], not a part of the fingerprint. *)
Theorem heartbeat_fingerprint (entry : PositionHeartbeatDecision)
    (stored : list DecisionArtifact.t) :
  ∃ artifact,
    recordPositionHeartbeatDecision entry stored = stored ++ [artifact]
    ∧ DecisionArtifact.fingerprint artifact
      = (symbol entry ++ ":" ++ timestamp entry)%string
    ∧ DecisionArtifact.source artifact = "heartbeat"%string
    ∧ DecisionArtifact.kind artifact = kind entry
    ∧ DecisionArtifact.marketId artifact = symbol entry
    ∧ DecisionArtifact.outcome artifact = outcome entry
    ∧ DecisionArtifact.payload artifact = entry.
Proof. eexists. by repeat split. Qed.

(** The fingerprint of a decision on ETH is "ETH:2024-05-01T12:00:00.000Z",
    without the prefix "heartbeat:". *)
Lemma heartbeat_fingerprint_has_no_prefix :
  ¬ Scenarios.fingerprintClaim Scenarios.ethEntry.
Proof.
  intros Hclaim. destruct (Hclaim []) as (artifact & Hlast & Hfp).
  cbn in Hlast. injection Hlast as <-. discriminate Hfp.
Qed.

End Journal.

(** ** The advisor's action validation *)

Section Validation.

Import PositionHeartbeat.

(** C1. A [tighten_stop] action is accepted only with a new stop that, for
    a long, is strictly above the current stop (if one is set) and strictly
    below the mark price, and for a short strictly below the current stop
    and strictly above the mark price; a rejected action sends no order. *)
Theorem tighten_stop_validated (minPositionSize : num) (a : AdvisorAction)
    (t : PositionTick) (stop : option num) :
  action a = "tighten_stop"%string →
  (ok (validateAction minPositionSize a t stop) = true →
   ∃ p, params a ≫= newStopPrice = Some p
        ∧ match positionSide t with
          | long =>
              (∀ st, stop = Some st → gt p st = true)
              ∧ lt p (markPrice t) = true
          | short =>
              (∀ st, stop = Some st → lt p st = true)
              ∧ gt p (markPrice t) = true
          end
        ∧ validateAndDispatch minPositionSize a t stop
          = (advised, [tightenStop (HeartbeatTriggers.symbol t) p]))
  ∧ (ok (validateAction minPositionSize a t stop) = false →
     validateAndDispatch minPositionSize a t stop = (rejected, [])).
Proof.
  intros Ha. split.
  - intros Hok. unfold validateAndDispatch, dispatch. rewrite Hok.
    unfold validateAction in Hok. rewrite Ha in *. cbn in Hok |- *.
    destruct (params a ≫= newStopPrice) as [p|]; [|done].
    exists p. split; [done|]. split; [|done].
    destruct (positionSide t), stop as [st|];
      apply andb_prop in Hok as [H1 H2]; split; try done;
      intros st' [= <-] || intros st' [=]; done.
  - intros Hko. unfold validateAndDispatch. by rewrite Hko.
Qed.

(** The cases of the tests of [validateAction]. *)
Lemma validateAction_tests (minPositionSize : num) :
  let act p := {| action := "tighten_stop";
                  params := Some {| newStopPrice := Some p; newTpPrice := None;
                                    fractionOfPosition := None |};
                  reason := "x" |} in
  let at2000 side :=
    {| timestamp := 0; symbol := "ETH"; markPrice := 2000; entryPrice := 0;
       unrealizedPnl := 0; pnlPctOfEquity := 0; accountEquity := 0;
       liquidationPrice := 0; distToLiquidationPct := 0; fundingRate := 0;
       stopLossPrice := None; takeProfitPrice := None; positionSide := side;
       positionSize := 1 |} in
  ok (validateAction minPositionSize (act 1800%float) (at2000 long) (Some 1900%float)) = false
  ∧ ok (validateAction minPositionSize (act 2001%float) (at2000 long) (Some 1900%float)) = false
  ∧ ok (validateAction minPositionSize (act 2300%float) (at2000 short) (Some 2200%float)) = false
  ∧ ok (validateAction minPositionSize (act 1950%float) (at2000 long) (Some 1900%float)) = true.
Proof. by repeat split. Qed.

End Validation.

(** ** Single triggers *)

Section Triggers.

Import Scenarios.

(** C4, as the code has it. [pnl_shift] fires in a call exactly when the
    shift of [pnlPctOfEquity] against the last advised value is at least
    the absolute value of [pnlShiftPct] and [nowMs] is at least 180 seconds
    past its cooldown entry. With the defaults a shift of exactly 1.5 fires
    and a shift of 1.4 does not. *)
Theorem pnl_shift_fires_iff (params : Params) (h h' : gmap loc TriggerState)
    (r : Result) (s : TriggerState) :
  call params h = (Returned r, h') →
  inputState params h = Some s →
  (pnl_shift ∈ firedNames r
   ↔ ge (mathAbs (pnlPctOfEquity (tick params) - lastLlmPnlPctOfEquity s)%float)
        (mathAbs (pnlShiftPct (cfg params))) = true
     ∧ ge (nowMs params
           - default 0%float (triggerCooldowns s !! pnl_shift))%float
          180000 = true)
  ∧ pnl_shift ∈ namesOf (evaluateOnce (tickMs 0) (withPnl 1.5) defaultConfig
                           (defaultTriggerState (tickMs 0)))
  ∧ pnl_shift ∉ namesOf (evaluateOnce (tickMs 0) (withPnl 1.4) defaultConfig
                           (defaultTriggerState (tickMs 0))).
Proof.
  intros (s' & Hin & Hf & _ & _)%call_inv Hs.
  rewrite Hs in Hin. injection Hin as <-.
  split; [|split].
  - rewrite (fired_iff_condition _ _ _ _ Hf). reflexivity.
  - vm_compute. set_solver.
  - vm_compute. set_solver.
Qed.

(** With [pnlShiftPct = -1.5], a shift of 1 from the default state is at
    least [pnlShiftPct] and no cooldown is running, yet [pnl_shift] does not
    fire: the code compares with the absolute value 1.5. *)
Lemma pnl_shift_negative_threshold :
  ¬ pnlShiftClaim
      {| nowMs := tickMs 0; tick := withPnl 1; buffer := [withPnl 1];
         state := Some 1%positive; cfg := negativeThreshold; extra := None |}
      {[ 1%positive := defaultTriggerState (tickMs 0) ]}.
Proof.
  intros Hclaim.
  edestruct (call_returns
    {| nowMs := tickMs 0; tick := withPnl 1; buffer := [withPnl 1];
       state := Some 1%positive; cfg := negativeThreshold; extra := None |}
    {[ 1%positive := defaultTriggerState (tickMs 0) ]}) as (r & h' & Hcall).
  { intros l [= <-]. by eexists. }
  destruct (Hclaim r h' _ Hcall eq_refl) as [_ Hfire].
  assert (Hin : pnl_shift ∈ firedNames r) by (apply Hfire; by vm_compute).
  revert Hin. vm_compute in Hcall. injection Hcall as <- _.
  vm_compute. set_solver.
Qed.

Lemma ge_abs_nan_sub (x c : num) : ge (mathAbs (nan - x)%float) c = false.
Proof.
  unfold ge, mathAbs.
  rewrite FloatAxioms.leb_spec, FloatAxioms.abs_spec, FloatAxioms.sub_spec.
  change (Prim2SF nan) with S754_nan.
  unfold SF64sub, SFsub. cbn. unfold SFleb, SFcompare.
  by destruct (Prim2SF c).
Qed.

Lemma ge_abs_nan (c : num) : ge (mathAbs nan) c = false.
Proof.
  unfold ge, mathAbs. rewrite FloatAxioms.leb_spec.
  change (Prim2SF (abs nan)) with S754_nan.
  unfold SFleb, SFcompare. by destruct (Prim2SF c).
Qed.

Lemma le_nan (c : num) : le nan c = false.
Proof.
  unfold le. rewrite FloatAxioms.leb_spec.
  change (Prim2SF nan) with S754_nan. reflexivity.
Qed.

(** What the code does keep of "non-finite inputs are not fired": a NaN in
    the field they compare keeps [pnl_shift], [liquidation_proximity] and
    [funding_spike] from firing. *)
Lemma nan_input_does_not_fire (params : Params) (h h' : gmap loc TriggerState)
    (r : Result) :
  call params h = (Returned r, h') →
  (pnlPctOfEquity (tick params) = nan → pnl_shift ∉ firedNames r)
  ∧ (distToLiquidationPct (tick params) = nan →
     liquidation_proximity ∉ firedNames r)
  ∧ (fundingRate (tick params) = nan → funding_spike ∉ firedNames r).
Proof.
  intros (s & _ & Hf & _ & _)%call_inv.
  repeat split; intros Hnan [Hc _]%(fired_iff_condition _ _ _ _ Hf);
    cbn [condition] in Hc.
  - by rewrite Hnan, ge_abs_nan_sub in Hc.
  - by rewrite Hnan, le_nan in Hc.
  - by rewrite Hnan, ge_abs_nan in Hc.
Qed.

(** C5 fails on the code: an infinite [pnlPctOfEquity], an infinite
    [fundingRate] and a [distToLiquidationPct] of minus infinity each fire
    the trigger that reads them. *)
Theorem non_finite_input_fires :
  namesOf (evaluateOnce (tickMs 0) (withPnl infinity) defaultConfig
             (defaultTriggerState (tickMs 0)))
  = [pnl_shift; time_ceiling]
  ∧ namesOf (evaluateOnce (tickMs 0) (withFunding infinity) defaultConfig
               (defaultTriggerState (tickMs 0)))
    = [funding_spike; time_ceiling]
  ∧ namesOf (evaluateOnce (tickMs 0) (withLiquidationDistance neg_infinity)
               defaultConfig (defaultTriggerState (tickMs 0)))
    = [liquidation_proximity; time_ceiling].
Proof. repeat split; by vm_compute. Qed.

(** C7 fails on the code: the evaluator writes the cooldowns into the state
    object it is given and returns that object as [nextState]. A second call
    with the same arguments finds the object changed and reports a different
    array. *)
Theorem repeated_call_differs :
  let params :=
    {| nowMs := tickMs 0; tick := ethLong 0 2080 None;
       buffer := [ethLong 0 2080 None]; state := Some 1%positive;
       cfg := defaultConfig; extra := None |} in
  let h := {[ 1%positive := defaultTriggerState (tickMs 0) ]} in
  let first := call params h in
  let second := call params first.2 in
  namesOf first = [stop_missing; time_ceiling]
  ∧ namesOf second = [time_ceiling]
  ∧ nextState <$> (match first.1 with Returned r => Some r | TypeError => None end)
    = Some 1%positive
  ∧ triggerCooldowns <$> h !! 1%positive = Some ∅
  ∧ triggerCooldowns <$> first.2 !! 1%positive
    = Some {[ stop_missing := tickMs 0; time_ceiling := tickMs 0 ]}.
Proof. repeat split; by vm_compute. Qed.

End Triggers.

(** ** Scenario S1: a quiet hold *)

Section QuietHold.

Import PositionHeartbeat Scenarios.

Lemma canFire_time_ceiling now cf s :
  canFire time_ceiling now (cooldownMs cf time_ceiling) s = true.
Proof. reflexivity. Qed.

(** When no other condition is met, a call reports [time_ceiling] alone,
    and only if one of its two branches is taken. *)
Lemma recorded_quiet (p : Params) (s : TriggerState) (stop tp : num) :
  extra p = None →
  stopLossPrice (tick p) = Some stop →
  takeProfitPrice (tick p) = Some tp →
  ge (mathAbs (pnlPctOfEquity (tick p) - lastLlmPnlPctOfEquity s)%float)
     (mathAbs (pnlShiftPct (cfg p))) = false →
  le (pctDistance (markPrice (tick p)) stop)
     (mathAbs (approachingStopPct (cfg p))) = false →
  le (pctDistance (markPrice (tick p)) tp)
     (mathAbs (approachingTpPct (cfg p))) = false →
  le (distToLiquidationPct (tick p))
     (mathAbs (liquidationProximityPct (cfg p))) = false →
  strictNe (sign (lastFundingRateSign s)) 0 = false →
  ge (mathAbs (fundingRate (tick p))) (mathAbs (fundingSpike (cfg p))) = false →
  (∀ base, base ∈ buffer p →
     ge (if isFinite (markPrice base) && gt (markPrice base) 0
         then (mathAbs (markPrice (tick p) - markPrice base)
               / markPrice base * 100)%float
         else 0%float)
        (mathAbs (volatilitySpikePct (cfg p))) = false) →
  recorded (nowMs p) (cfg p) (candidates p s) s
  = if timeCeilingAged (nowMs p) (cfg p) s || timeCeilingFirst (cfg p) s
    then [time_ceiling] else [].
Proof.
  intros Hex Hstop Htp Hpnl Hs Ht Hliq Hflip Hspike Hmove.
  unfold candidates. cbv zeta.
  rewrite Hex, Hstop, Htp, Hpnl, Hs, Ht, Hliq, Hflip, Hspike.
  rewrite (bool_decide_eq_false_2 (Some stop = None)) by done.
  cbn [mbind option_bind truthy default bool_decide decide_rel candidate app andb].
  assert (Hvol :
    (if Z.of_nat (length (buffer p))
        >=? clampInt (volatilitySpikeWindowTicks (cfg p)) 1 10000
     then
       match arrayGet (buffer p)
               (Z.of_nat (length (buffer p))
                - clampInt (volatilitySpikeWindowTicks (cfg p)) 1 10000) with
       | Some base =>
           candidate
             (ge (if isFinite (markPrice base) && gt (markPrice base) 0
                  then (mathAbs (markPrice (tick p) - markPrice base)
                        / markPrice base * 100)%float
                  else 0%float)
                 (mathAbs (volatilitySpikePct (cfg p))))
             volatility_spike
             [Lit "Price moved ";
              Fixed (if isFinite (markPrice base) && gt (markPrice base) 0
                     then (mathAbs (markPrice (tick p) - markPrice base)
                           / markPrice base * 100)%float
                     else 0%float) 2;
              Lit "% over last ";
              Shown (ofZ (clampInt (volatilitySpikeWindowTicks (cfg p)) 1 10000));
              Lit " ticks."]
       | None => []
       end
     else []) = []).
  { destruct (_ >=? _); [|done].
    destruct (arrayGet _ _) as [base|] eqn:Hbase; [|done].
    rewrite Hmove; [done|].
    unfold arrayGet in Hbase. destruct (_ <? 0); [done|].
    by eapply list_elem_of_lookup_2. }
  rewrite Hvol. cbn [app].
  destruct (timeCeilingAged _ _ s) eqn:Haged.
  - rewrite (timeCeiling_exclusive _ _ _ Haged). cbn [candidate app orb].
    by rewrite recorded_cons, canFire_time_ceiling.
  - destruct (timeCeilingFirst _ s); cbn [candidate app orb]; [|done].
    by rewrite recorded_cons, canFire_time_ceiling.
Qed.

Lemma quiet_alone_table : Forall (λ m, quietAlone m = true) quietPrices.
Proof. apply (bool_decide_unpack _). by vm_compute. Qed.

Lemma quiet_shift_table :
  Forall (λ m, Forall (λ lp, quietShift m lp = true) advisedPnls) quietPrices.
Proof. apply (bool_decide_unpack _). by vm_compute. Qed.

Lemma quiet_move_table :
  Forall (λ m, Forall (λ b, quietMove m b = true) quietPrices) quietPrices.
Proof. apply (bool_decide_unpack _). by vm_compute. Qed.

Lemma quietAlone_grid m : m ∈ quietPrices → quietAlone m = true.
Proof.
  intros Hm. pose proof quiet_alone_table as Ht.
  rewrite Forall_forall in Ht. by apply Ht.
Qed.

Lemma quietShift_grid m lp :
  m ∈ quietPrices → lp ∈ advisedPnls → quietShift m lp = true.
Proof.
  intros Hm Hlp. pose proof quiet_shift_table as Ht.
  rewrite Forall_forall in Ht. specialize (Ht m Hm).
  rewrite Forall_forall in Ht. by apply Ht.
Qed.

Lemma quietMove_grid m b :
  m ∈ quietPrices → b ∈ quietPrices → quietMove m b = true.
Proof.
  intros Hm Hb. pose proof quiet_move_table as Ht.
  rewrite Forall_forall in Ht. specialize (Ht m Hm).
  rewrite Forall_forall in Ht. by apply Ht.
Qed.

Lemma ceilingDue_state now s :
  timeCeilingAged now defaultConfig s || timeCeilingFirst defaultConfig s
  = ceilingDue now (lastLlmCheckTimestamp s).
Proof. reflexivity. Qed.

Lemma pushTick_Forall (P : PositionTick → Prop) n buf t :
  Forall P buf → P t → Forall P (pushTick n buf t).
Proof.
  intros Hbuf Ht. unfold pushTick. apply Forall_drop, Forall_app. by split; [|constructor].
Qed.

(** One tick of S1. *)
Lemma quiet_tick (w : Watcher) (lastMs : num) (i : nat) (m : num) :
  quietWatcher w lastMs → m ∈ quietPrices →
  let due := ceilingDue (tickMs i) lastMs in
  let w' := watcherTick defaultConfig 1%positive w (ethLong i m (Some 2050%float)) in
  quietWatcher w' (if due then tickMs i else lastMs)
  ∧ journal w' = journal w ++ [if due then [time_ceiling] else []].
Proof.
  intros (Hopen & Hticks & s & Hs & Hlast & Hlp & Hsign) Hm due w'.
  pose proof (quietAlone_grid m Hm) as Hq.
  unfold quietAlone in Hq. cbv zeta in Hq.
  repeat (apply andb_prop in Hq as [Hq ?]).
  pose proof (quietShift_grid m _ Hm Hlp) as Hshift.
  unfold quietShift in Hshift. cbv zeta in Hshift.
  repeat match goal with H : negb _ = true |- _ => apply negb_true_iff in H end.
  set (t := ethLong i m (Some 2050%float)).
  set (p := {| nowMs := timestamp t; tick := t;
               buffer := pushTick 60 (ticks w) t; state := Some 1%positive;
               cfg := defaultConfig; extra := None |}).
  assert (Hrec : recorded (nowMs p) (cfg p) (candidates p s) s
                 = if due then [time_ceiling] else []).
  { rewrite (recorded_quiet p s 2050 2140); try done.
    - unfold due. by rewrite ceilingDue_state, Hlast.
    - by rewrite Hsign.
    - intros base Hbase.
      assert (Hgrid : markPrice base ∈ quietPrices).
      { assert (Hall : Forall (λ t, markPrice t ∈ quietPrices) (buffer p)).
        { by apply pushTick_Forall. }
        rewrite Forall_forall in Hall. by apply Hall. }
      pose proof (quietMove_grid m _ Hm Hgrid) as Hq'.
      unfold quietMove in Hq'. cbv zeta in Hq'.
      by apply negb_true_iff in Hq'. }
  assert (Hw' : w' =
    {| store := if bool_decide ((outcomeOf p s).1 = [])
                then <[1%positive := (outcomeOf p s).2]> (store w)
                else commitAdvisorState 1%positive t
                       (<[1%positive := (outcomeOf p s).2]> (store w));
       ticks := pushTick 60 (ticks w) t; closed := false;
       journal := journal w ++ [recorded (nowMs p) (cfg p) (candidates p s) s] |}).
  { unfold w', watcherTick. rewrite Hopen.
    replace (circuitBreaker (ethLong i m (Some 2050%float))) with false by done.
    fold t.
    pose proof (call_some p 1%positive (store w) s eq_refl Hs) as Hc.
    match goal with
    | |- context [call ?x ?y] => change (call x y) with (call p (store w))
    end.
    by rewrite Hc. }
  rewrite Hw'. cbn [journal]. rewrite Hrec. split; [|done].
  split; [done|]. split; [by apply pushTick_Forall|]. cbn [store].
  destruct (stateAfter_fields (nowMs p) (cfg p) (candidates p s) s)
    as (F1 & F2 & F3 & F4).
  fold (outcomeOf p s) in F1, F2, F3, F4. unfold stateAfter in F1, F2, F3, F4.
  fold (outcomeOf p s) in F1, F2, F3, F4.
  destruct due.
  - rewrite bool_decide_eq_false_2.
    2:{ intros Hnil. unfold recorded in Hrec. fold (outcomeOf p s) in Hrec.
        by rewrite Hnil in Hrec. }
    unfold commitAdvisorState. rewrite lookup_insert_eq.
    eexists. split; [apply lookup_insert_eq|]. cbn.
    split; [done|]. split; [|done].
    unfold advisedPnls. apply elem_of_cons. right.
    apply list_elem_of_fmap. by exists m.
  - rewrite bool_decide_eq_true_2.
    2:{ unfold recorded in Hrec. fold (outcomeOf p s) in Hrec.
        by apply fmap_nil_inv in Hrec. }
    eexists. split; [apply lookup_insert_eq|].
    rewrite F1, F2, F4. done.
Qed.

(** A run of S1 from tick [k]: the journal is the schedule of the time
    ceiling. *)
Lemma run_quiet (marks : list num) :
  ∀ (k : nat) (w : Watcher) (lastMs : num),
    quietWatcher w lastMs →
    Forall (λ m, m ∈ quietPrices) marks →
    journal (fold_left (watcherTick defaultConfig 1%positive) (s1Ticks k marks) w)
    = journal w ++ ceilingSchedule k lastMs (length marks).
Proof.
  induction marks as [|m marks IH]; intros k w lastMs Hw Hmarks.
  - cbn. by rewrite app_nil_r.
  - apply Forall_cons in Hmarks as [Hm Hmarks].
    destruct (quiet_tick w lastMs k m Hw Hm) as [Hw' Hj].
    cbn [s1Ticks fold_left length ceilingSchedule].
    rewrite (IH _ _ _ Hw' Hmarks), Hj, <- app_assoc. done.
Qed.

(** C3, as the code has it. In S1 (60 ticks, 30 seconds apart, mark prices
    in whole cents within [2078, 2085], default configuration, default
    trigger state, the advisor committing after each advised tick)
    [time_ceiling] fires twice, on the first tick, where no advisor check is
    recorded yet, and on tick 30, fifteen minutes later; no other trigger
    fires. *)
Theorem quiet_hold_two_ceilings (marks : list num) :
  length marks = 60%nat →
  Forall (λ m, m ∈ quietPrices) marks →
  journal (runS1 marks)
  = [[time_ceiling]] ++ replicate 29 [] ++ [[time_ceiling]] ++ replicate 29 []
  ∧ timeCeilingFirings (runS1 marks) = 2%nat
  ∧ Forall (λ n, n = time_ceiling) (concat (journal (runS1 marks))).
Proof.
  intros Hlen Hmarks.
  assert (Hj : journal (runS1 marks)
               = [[time_ceiling]] ++ replicate 29 [] ++ [[time_ceiling]]
                 ++ replicate 29 []).
  { unfold runS1. rewrite (run_quiet marks 0 (freshWatcher 1%positive) 0%float).
    - rewrite Hlen. by vm_compute.
    - split; [done|]. split; [constructor|].
      exists (defaultTriggerState (tickMs 0)).
      split; [apply lookup_singleton_eq|]. split; [done|]. split; [|done].
      apply list_elem_of_here.
    - done. }
  unfold timeCeilingFirings. rewrite Hj. split; [done|]. split; [by vm_compute|].
  cbn. by repeat constructor.
Qed.

(** On the path [zigzag] the time ceiling fires twice, not once. *)
Lemma quiet_hold_not_once : ¬ quietHoldClaim zigzag.
Proof. intros [Hone _]. vm_compute in Hone. discriminate. Qed.

End QuietHold.

(** ** The theorems at concrete inputs *)

Section Witnesses.

Import PositionHeartbeat Scenarios.

Lemma unprotected_call_0 :
  call (unprotected 0) freshStore
  = (Returned (resultOf (call (unprotected 0) freshStore)), storeAfter0).
Proof. by vm_compute. Defined.

Lemma unprotected_call_1 :
  call (unprotected 1) storeAfter0
  = (Returned (resultOf (call (unprotected 1) storeAfter0)), storeAfter1).
Proof. by vm_compute. Defined.

Lemma unprotected_call_2 :
  call (unprotected 2) storeAfter1
  = (Returned (resultOf (call (unprotected 2) storeAfter1)), storeAfter2).
Proof. by vm_compute. Defined.

Lemma fired_once_in_order_witness :
  call (unprotected 0) freshStore
  = (Returned (resultOf (call (unprotected 0) freshStore)), storeAfter0)
  ∧ NoDup (firedNames (resultOf (call (unprotected 0) freshStore)))
  ∧ sublist (firedNames (resultOf (call (unprotected 0) freshStore)))
      evaluationOrder.
Proof.
  split; [exact unprotected_call_0|].
  exact (fired_once_in_order (unprotected 0) freshStore storeAfter0 _
           unprotected_call_0).
Defined.

Lemma cooldowns_updated_iff_fired_witness :
  ∃ s s',
    inputState (unprotected 0) freshStore = Some s
    ∧ storeAfter0 !! nextState (resultOf (call (unprotected 0) freshStore))
      = Some s'
    ∧ (∀ n, triggerCooldowns s' !! n
            = if decide (n ∈ firedNames (resultOf (call (unprotected 0) freshStore)))
              then Some (nowMs (unprotected 0))
              else triggerCooldowns s !! n)
    ∧ lastLlmCheckTimestamp s' = lastLlmCheckTimestamp s
    ∧ lastLlmPnlPctOfEquity s' = lastLlmPnlPctOfEquity s
    ∧ lastLlmMarkPrice s' = lastLlmMarkPrice s
    ∧ lastFundingRateSign s' = lastFundingRateSign s
    ∧ (∀ l', l' ≠ nextState (resultOf (call (unprotected 0) freshStore)) →
         storeAfter0 !! l' = freshStore !! l').
Proof.
  exact (cooldowns_updated_iff_fired (unprotected 0) freshStore storeAfter0 _
           unprotected_call_0).
Defined.

Lemma evaluate_total_witness :
  (∀ l, state outOfRangePoll = Some l → is_Some (freshStore !! l))
  ∧ (∃ r h', call outOfRangePoll freshStore = (Returned r, h'))
  ∧ clampInt (volatilitySpikeWindowTicks outOfRange) 1 10000 = 2
  ∧ clampInt (timeCeilingMinutes outOfRange) 1 10000 = 1
  ∧ clampInt (triggerCooldownSeconds outOfRange) 0 86400 = 86400
  ∧ (∃ base, arrayGet (buffer outOfRangePoll) 1 = Some base)
  ∧ clampInt (volatilitySpikeWindowTicks (cfg (unprotected 0))) 1 10000 = 10
  ∧ clampInt (timeCeilingMinutes (cfg (unprotected 0))) 1 10000 = 15
  ∧ clampInt (triggerCooldownSeconds (cfg (unprotected 0))) 0 86400 = 180
  ∧ (∃ r h', call notFinitePoll freshStore = (Returned r, h'))
  ∧ clampInt (volatilitySpikeWindowTicks notFinite) 1 10000 = 1
  ∧ clampInt (timeCeilingMinutes notFinite) 1 10000 = 1
  ∧ clampInt (triggerCooldownSeconds notFinite) 0 86400 = 0
  ∧ (∃ base, arrayGet (buffer notFinitePoll) 0 = Some base).
Proof.
  assert (Hwf : ∀ l, state outOfRangePoll = Some l → is_Some (freshStore !! l)).
  { intros l [= <-]. eexists. reflexivity. }
  assert (Hwf0 : ∀ l, state (unprotected 0) = Some l → is_Some (freshStore !! l)).
  { intros l [= <-]. eexists. reflexivity. }
  assert (Hwf1 : ∀ l, state notFinitePoll = Some l → is_Some (freshStore !! l)).
  { intros l [= <-]. eexists. reflexivity. }
  split; [exact Hwf|].
  destruct (evaluate_total outOfRangePoll freshStore Hwf)
    as (Hret & _ & _ & _ & _ & _ & _ & Hbase & Hw & Hc & Hs & _).
  destruct (evaluate_total (unprotected 0) freshStore Hwf0)
    as (_ & _ & _ & _ & _ & _ & _ & _ & _ & _ & _ & Hw0 & Hc0 & Hs0).
  destruct (evaluate_total notFinitePoll freshStore Hwf1)
    as (Hret1 & _ & _ & _ & Hw1 & Hc1 & Hs1 & Hbase1 & _).
  split; [exact Hret|].
  split; [exact (Hw eq_refl)|].
  split; [exact (Hc eq_refl)|].
  split; [exact (Hs eq_refl)|].
  split.
  { destruct (Hbase eq_refl) as (base & Hb & _). exists base. exact Hb. }
  split; [exact (Hw0 10 ltac:(lia) eq_refl)|].
  split; [exact (Hc0 15 ltac:(lia) eq_refl)|].
  split; [exact (Hs0 180 ltac:(lia) eq_refl)|].
  split; [exact Hret1|].
  split; [exact (Hw1 eq_refl)|].
  split; [exact (Hc1 eq_refl)|].
  split; [exact (Hs1 eq_refl)|].
  destruct (Hbase1 eq_refl) as (base & Hb & _). exists base. exact Hb.
Defined.

Lemma pnl_shift_fires_iff_witness :
  pnl_shift ∈ firedNames (resultOf (call (unprotected 0) freshStore))
  ↔ ge (mathAbs (pnlPctOfEquity (tick (unprotected 0))
                 - lastLlmPnlPctOfEquity (defaultTriggerState (tickMs 0)))%float)
       (mathAbs (pnlShiftPct (cfg (unprotected 0)))) = true
    ∧ ge (nowMs (unprotected 0)
          - (default 0%float
               (triggerCooldowns (defaultTriggerState (tickMs 0)) !! pnl_shift)))%float
         180000 = true.
Proof.
  exact (proj1 (pnl_shift_fires_iff (unprotected 0) freshStore storeAfter0 _
                  (defaultTriggerState (tickMs 0)) unprotected_call_0 eq_refl)).
Defined.

Lemma cooldown_discipline_witness :
  stop_missing ∈ firedNames (resultOf (call (unprotected 0) freshStore))
  ∧ (stop_missing ∉ firedNames (resultOf (call (unprotected 1) storeAfter0)))
  ∧ stop_missing ∈ firedNames (resultOf (call (unprotected 2) storeAfter1))
  ∧ ge (nowMs (unprotected 2) - nowMs (unprotected 0))%float
       (cooldownMs defaultConfig stop_missing) = true.
Proof.
  assert (H0 : stop_missing ∈ firedNames (resultOf (call (unprotected 0) freshStore))).
  { vm_compute. apply list_elem_of_here. }
  assert (H1 : stop_missing ∉ firedNames (resultOf (call (unprotected 1) storeAfter0))).
  { vm_compute. intros Hin. apply elem_of_cons in Hin as [Hin|Hin]; [done|].
    by apply elem_of_nil in Hin. }
  assert (H2 : stop_missing ∈ firedNames (resultOf (call (unprotected 2) storeAfter1))).
  { vm_compute. apply list_elem_of_here. }
  split; [exact H0|]. split; [exact H1|]. split; [exact H2|].
  pose proof (cooldown_discipline stop_missing (unprotected 0) (unprotected 2)
                freshStore storeAfter0 storeAfter1 storeAfter2
                (resultOf (call (unprotected 0) freshStore))
                (resultOf (call (unprotected 2) storeAfter1))
                (defaultTriggerState (tickMs 0)) eq_refl unprotected_call_0 H0)
    as (_ & _ & Hgap & _).
  apply Hgap.
  - eapply quietly_call; [| exact unprotected_call_1 | exact H1 | apply quietly_done].
    reflexivity.
  - reflexivity.
  - exact unprotected_call_2.
  - exact H2.
  - reflexivity.
Defined.

Lemma zigzag_on_grid : Forall (λ m, m ∈ quietPrices) zigzag.
Proof.
  unfold zigzag, quietPrices. apply Forall_fmap, Forall_forall.
  intros i _. apply (list_elem_of_fmap_2 centPrice), elem_of_seqZ.
  pose proof (Z.mod_pos_bound (137 * Z.of_nat i) 701 ltac:(lia)). lia.
Defined.

Lemma quiet_hold_two_ceilings_witness :
  length zigzag = 60%nat
  ∧ Forall (λ m, m ∈ quietPrices) zigzag
  ∧ timeCeilingFirings (runS1 zigzag) = 2%nat.
Proof.
  split; [reflexivity|]. split; [exact zigzag_on_grid|].
  exact (proj1 (proj2 (quiet_hold_two_ceilings zigzag eq_refl zigzag_on_grid))).
Defined.

Lemma tighten_stop_validated_witness :
  action (tightenTo 2080) = "tighten_stop"%string
  ∧ validateAndDispatch 0 (tightenTo 2080) (ethLong 0 2110 (Some 2050%float))
      (Some 2050%float)
    = (advised, [tightenStop "ETH" 2080])
  ∧ validateAndDispatch 0 (tightenTo 2040) (ethLong 0 2100 (Some 2050%float))
      (Some 2050%float)
    = (rejected, []).
Proof.
  split; [reflexivity|]. split.
  - destruct (proj1 (tighten_stop_validated 0 (tightenTo 2080)
                       (ethLong 0 2110 (Some 2050%float)) (Some 2050%float)
                       eq_refl) eq_refl) as (p & Hp & _ & Hd).
    injection Hp as <-. exact Hd.
  - exact (proj2 (tighten_stop_validated 0 (tightenTo 2040)
                    (ethLong 0 2100 (Some 2050%float)) (Some 2050%float)
                    eq_refl) eq_refl).
Defined.

End Witnesses.

(** * Further properties of the code *)

(** ** Facts of binary64 arithmetic *)

Section FloatFacts.

Lemma Prim2SF_inj (x y : num) : Prim2SF x = Prim2SF y → x = y.
Proof.
  intros H. rewrite <- (FloatAxioms.SF2Prim_Prim2SF x),
    <- (FloatAxioms.SF2Prim_Prim2SF y). by rewrite H.
Qed.

Lemma SFcompare_refl_finite s m e :
  SFcompare (S754_finite s m e) (S754_finite s m e) = Some Eq.
Proof.
  cbn. rewrite Z.compare_refl, Pos.compare_cont_refl. by destruct s.
Qed.

Lemma isFinite_spec (x : num) :
  isFinite x
  = match Prim2SF x with
    | S754_zero _ | S754_finite _ _ _ => true
    | _ => false
    end.
Proof.
  unfold isFinite, is_finite, is_nan, is_infinity.
  rewrite !FloatAxioms.eqb_spec, FloatAxioms.abs_spec.
  change (Prim2SF infinity) with (S754_infinity false).
  destruct (Prim2SF x) as [s|s| |s m e]; try done; try by destruct s.
  unfold SFeqb at 1. by rewrite SFcompare_refl_finite.
Qed.

Lemma is_nan_spec (x : num) :
  PrimFloat.is_nan x = match Prim2SF x with S754_nan => true | _ => false end.
Proof.
  unfold is_nan. rewrite FloatAxioms.eqb_spec.
  destruct (Prim2SF x) as [s|s| |s m e]; try done; try by destruct s.
  unfold SFeqb. by rewrite SFcompare_refl_finite.
Qed.

(** [x - x] is [+0] or NaN. *)
Lemma sub_self (x : num) :
  Prim2SF (x - x) = S754_zero false ∨ Prim2SF (x - x) = S754_nan.
Proof.
  rewrite FloatAxioms.sub_spec. unfold SF64sub.
  destruct (Prim2SF x) as [[]|[]| |s m e]; cbn; auto.
  rewrite Z.sub_diag. auto.
Qed.

Lemma ge_sub_self (x cd : num) : gt cd 0 = true → ge (x - x) cd = false.
Proof.
  unfold gt, ge. rewrite FloatAxioms.ltb_spec, FloatAxioms.leb_spec.
  change (Prim2SF 0) with (S754_zero false).
  destruct (sub_self x) as [-> | ->];
    destruct (Prim2SF cd) as [[]|[]| |[] m e]; cbn; congruence.
Qed.

(** [x - 0] is [x]. *)
Lemma sub_zero (x : num) : (x - 0)%float = x.
Proof.
  apply Prim2SF_inj. rewrite FloatAxioms.sub_spec. unfold SF64sub.
  change (Prim2SF 0) with (S754_zero false).
  by destruct (Prim2SF x) as [[]|[]| |s m e].
Qed.

Lemma lt_zero_not_gt_eq (x : num) :
  lt x 0 = true → gt x 0 = false ∧ strictEq x 0 = false.
Proof.
  unfold lt, gt, strictEq.
  rewrite !FloatAxioms.ltb_spec, FloatAxioms.eqb_spec.
  change (Prim2SF 0) with (S754_zero false).
  destruct (Prim2SF x) as [[]|[]| |[] m e]; cbn; auto; congruence.
Qed.

Lemma ge_nan_sub (x c : num) : ge (nan - x)%float c = false.
Proof.
  unfold ge. rewrite FloatAxioms.leb_spec, FloatAxioms.sub_spec.
  change (Prim2SF nan) with S754_nan. cbn.
  unfold SFleb, SFcompare. by destruct (Prim2SF c).
Qed.

Lemma le_infinity_abs_finite (c : num) :
  isFinite c = true → le infinity (mathAbs c) = false.
Proof.
  rewrite isFinite_spec. unfold le, mathAbs.
  rewrite FloatAxioms.leb_spec, FloatAxioms.abs_spec.
  change (Prim2SF infinity) with (S754_infinity false).
  by destruct (Prim2SF c) as [[]|[]| |[] m e].
Qed.

Lemma ge_zero_abs (c : num) :
  ge 0 (mathAbs c) = true → strictEq c 0 = true.
Proof.
  unfold ge, mathAbs, strictEq.
  rewrite FloatAxioms.leb_spec, FloatAxioms.abs_spec, FloatAxioms.eqb_spec.
  change (Prim2SF 0) with (S754_zero false).
  by destruct (Prim2SF c) as [[]|[]| |[] m e].
Qed.

Lemma le_zero_abs (c : num) :
  PrimFloat.is_nan c = false → le 0 (mathAbs c) = true.
Proof.
  rewrite is_nan_spec. unfold le, mathAbs.
  rewrite FloatAxioms.leb_spec, FloatAxioms.abs_spec.
  change (Prim2SF 0) with (S754_zero false).
  by destruct (Prim2SF c) as [[]|[]| |[] m e].
Qed.

(** A finite number that is not zero is above or below zero. *)
Lemma finite_nonzero_sign (x : num) :
  isFinite x = true → strictEq x 0 = false →
  (gt x 0 = true ∧ lt x 0 = false) ∨ (gt x 0 = false ∧ lt x 0 = true).
Proof.
  rewrite isFinite_spec. unfold gt, lt, strictEq.
  rewrite !FloatAxioms.ltb_spec, FloatAxioms.eqb_spec.
  change (Prim2SF 0) with (S754_zero false).
  destruct (Prim2SF x) as [[]|[]| |[] m e]; cbn; auto; congruence.
Qed.

(** The distance of a price from itself is 0. *)
Lemma pctDistance_self (a : num) :
  isFinite a = true → strictEq a 0 = false → pctDistance a a = 0%float.
Proof.
  intros Hf Hz. unfold pctDistance. rewrite Hf, Hz. cbn [negb orb].
  apply Prim2SF_inj. unfold mathAbs.
  rewrite FloatAxioms.mul_spec, FloatAxioms.div_spec, !FloatAxioms.abs_spec.
  rewrite isFinite_spec in Hf.
  unfold strictEq in Hz. rewrite FloatAxioms.eqb_spec in Hz.
  change (Prim2SF 0) with (S754_zero false) in *.
  destruct (sub_self a) as [-> | Hnan].
  - destruct (Prim2SF a) as [[]|[]| |[] m e]; done.
  - rewrite FloatAxioms.sub_spec in Hnan. unfold SF64sub in Hnan.
    destruct (Prim2SF a) as [[]|[]| |s m e]; try done.
    cbn in Hnan. rewrite Z.sub_diag in Hnan. done.
Qed.

End FloatFacts.

(** ** The evaluator, trigger by trigger *)

Section Catalog.

Import Variations.

Lemma call_fired_iff (params : Params) (h h' : gmap loc TriggerState)
    (r : Result) (s : TriggerState) (n : HeartbeatTriggerName) :
  call params h = (Returned r, h') →
  inputState params h = Some s →
  n ∈ firedNames r
  ↔ condition params s n = true
    ∧ canFire n (nowMs params) (cooldownMs (cfg params) n) s = true.
Proof.
  intros (s' & Hin & Hf & _ & _)%call_inv Hs.
  rewrite Hs in Hin. injection Hin as <-.
  by apply fired_iff_condition.
Qed.

(** X1. The names a call reports are exactly the triggers, in the order of
    evaluation, whose condition holds and whose cooldown has run out on
    the state the call starts from. *)
Theorem fired_names_characterised (params : Params)
    (h h' : gmap loc TriggerState) (r : Result) (s : TriggerState) :
  call params h = (Returned r, h') →
  inputState params h = Some s →
  firedNames r
  = filter (λ n, condition params s n = true
                 ∧ canFire n (nowMs params) (cooldownMs (cfg params) n) s = true)
      evaluationOrder.
Proof.
  intros (s' & Hin & Hf & _ & _)%call_inv Hs.
  rewrite Hs in Hin. injection Hin as <-.
  by apply firedNames_catalog.
Qed.

(** X2. [triggerCooldownSeconds] has no effect: every trigger has its own
    cooldown in [DEFAULT_COOLDOWNS_MS], so the fallback is never taken. *)
Theorem generic_cooldown_setting_unused (params : Params) (x : num)
    (h : gmap loc TriggerState) :
  call (withCooldownSeconds params x) h = call params h.
Proof. reflexivity. Qed.

Lemma condition_fields (params : Params) (s1 s2 : TriggerState) n :
  sameAdvisorFields s1 s2 → condition params s1 n = condition params s2 n.
Proof.
  intros (H1 & H2 & _ & H4).
  destruct n; cbn [condition]; unfold timeCeilingAged, timeCeilingFirst;
    by rewrite ?H1, ?H2, ?H4.
Qed.

Lemma canFire_again (n : HeartbeatTriggerName) (now : num)
    (cf : HeartbeatTriggerConfig) (s : TriggerState) :
  triggerCooldowns s !! n = Some now →
  canFire n now (cooldownMs cf n) s = negb (gt (cooldownMs cf n) 0).
Proof.
  intros Hentry. unfold canFire. rewrite Hentry. cbn [default].
  destruct n; cbn; try reflexivity; by apply ge_sub_self.
Qed.

(** X3. Calling again at once, with the same parameters and on the state
    object the first call has written, reports exactly the triggers of
    the first call that have no cooldown. *)
Theorem repeated_call_fires_uncooled_only (params : Params) (l : loc)
    (h h1 h2 : gmap loc TriggerState) (r1 r2 : Result) :
  state params = Some l →
  call params h = (Returned r1, h1) →
  call params h1 = (Returned r2, h2) →
  firedNames r2
  = filter (λ n, gt (cooldownMs (cfg params) n) 0 = false) (firedNames r1).
Proof.
  intros Hst Hc1 Hc2.
  pose proof Hc1 as (s & Hin & Hf1 & -> & Hnext)%call_inv.
  rewrite (Hnext l Hst) in *.
  assert (Hin2 : inputState params (<[l := (outcomeOf params s).2]> h)
                 = Some (stateAfter (nowMs params) (cfg params)
                           (candidates params s) s)).
  { unfold inputState. rewrite Hst. apply lookup_insert_eq. }
  rewrite (fired_names_characterised _ _ _ _ _ Hc2 Hin2).
  rewrite (fired_names_characterised _ _ _ _ _ Hc1 Hin).
  rewrite list_filter_filter. apply list_filter_iff. intros n.
  rewrite (condition_fields _ _ s) by apply stateAfter_fields.
  destruct (decide (n ∈ firedNames r1)) as [Hn|Hn].
  - pose proof Hn as Hn'.
    apply (call_fired_iff _ _ _ _ _ _ Hc1 Hin) in Hn' as [Hcond Hcan].
    rewrite canFire_again.
    2:{ rewrite stateAfter_cooldowns, decide_True; [done|].
        by rewrite <- (firedNames_recorded _ _ _ Hf1). }
    rewrite Hcond, Hcan. destruct (gt _ 0); cbn; naive_solver.
  - rewrite (canFire_ext _ _ _ _ s).
    2:{ rewrite stateAfter_cooldowns, decide_False; [done|].
        by rewrite <- (firedNames_recorded _ _ _ Hf1). }
    rewrite (call_fired_iff _ _ _ _ _ _ Hc1 Hin) in Hn. naive_solver.
Qed.

Lemma truthy_true (b : option bool) : truthy b = true ↔ b = Some true.
Proof. destruct b as [[]|]; cbn; naive_solver. Qed.

Lemma ceilingMs_positive (x : num) :
  (clampInt x 1 10000 * 60000 >? 0) = true.
Proof.
  pose proof (clampInt_bounds x 1 10000 ltac:(lia)). apply Z.gtb_lt. lia.
Qed.

(** X4. [time_ceiling] has no cooldown: it fires in a call exactly when no
    advisor check is recorded ([lastLlmCheckTimestamp === 0]) or the last
    one is at least the clamped ceiling old. A negative or NaN
    [lastLlmCheckTimestamp] therefore silences it for good. *)
Theorem time_ceiling_fires_iff (params : Params)
    (h h' : gmap loc TriggerState) (r : Result) (s : TriggerState) :
  call params h = (Returned r, h') →
  inputState params h = Some s →
  (time_ceiling ∈ firedNames r
   ↔ strictEq (lastLlmCheckTimestamp s) 0 = true
     ∨ (gt (lastLlmCheckTimestamp s) 0 = true
        ∧ ge (nowMs params - lastLlmCheckTimestamp s)%float
             (ofZ (clampInt (timeCeilingMinutes (cfg params)) 1 10000 * 60000))
          = true))
  ∧ (lt (lastLlmCheckTimestamp s) 0 = true → time_ceiling ∉ firedNames r)
  ∧ (lastLlmCheckTimestamp s = nan → time_ceiling ∉ firedNames r).
Proof.
  intros Hcall Hs.
  assert (Hiff : time_ceiling ∈ firedNames r
    ↔ strictEq (lastLlmCheckTimestamp s) 0 = true
      ∨ (gt (lastLlmCheckTimestamp s) 0 = true
         ∧ ge (nowMs params - lastLlmCheckTimestamp s)%float
              (ofZ (clampInt (timeCeilingMinutes (cfg params)) 1 10000 * 60000))
           = true)).
  { rewrite (call_fired_iff _ _ _ _ _ _ Hcall Hs).
    cbn [condition]. unfold timeCeilingAged, timeCeilingFirst.
    rewrite ceilingMs_positive. cbn [andb].
    rewrite orb_true_iff, andb_true_iff.
    assert (canFire time_ceiling (nowMs params)
              (cooldownMs (cfg params) time_ceiling) s = true) by reflexivity.
    naive_solver. }
  split; [done|]. split.
  - intros [Hgt Heq]%lt_zero_not_gt_eq. rewrite Hiff, Hgt, Heq. naive_solver.
  - intros Hnan. rewrite Hiff, Hnan.
    change (strictEq nan 0) with false. change (gt nan 0) with false.
    naive_solver.
Qed.

(** X5. [position_opened] and [position_closed] fire whenever their flag is
    set, whatever the tick, the state and the time; without the flag they
    never fire. *)
Theorem position_flags_always_fire (params : Params)
    (h h' : gmap loc TriggerState) (r : Result) :
  call params h = (Returned r, h') →
  (position_opened ∈ firedNames r ↔ extra params ≫= positionOpened = Some true)
  ∧ (position_closed ∈ firedNames r ↔ extra params ≫= positionClosed = Some true).
Proof.
  intros Hcall.
  pose proof Hcall as (s & Hin & _)%call_inv.
  rewrite !(call_fired_iff _ _ _ _ _ _ Hcall Hin). cbn [condition].
  rewrite !truthy_true.
  assert (canFire position_opened (nowMs params)
            (cooldownMs (cfg params) position_opened) s = true) by reflexivity.
  assert (canFire position_closed (nowMs params)
            (cooldownMs (cfg params) position_closed) s = true) by reflexivity.
  naive_solver.
Qed.

Lemma pctDistance_unusable (a b : num) :
  isFinite a && negb (strictEq a 0) && isFinite b = false →
  pctDistance a b = infinity.
Proof.
  intros H. unfold pctDistance.
  destruct (isFinite a), (strictEq a 0), (isFinite b); done.
Qed.

Lemma approaching_usable (a b c : num) :
  isFinite c = true →
  le (pctDistance a b) (mathAbs c) = true →
  isFinite a = true ∧ strictEq a 0 = false ∧ isFinite b = true.
Proof.
  intros Hc Hle.
  destruct (isFinite a && negb (strictEq a 0) && isFinite b) eqn:Hok.
  - apply andb_prop in Hok as [[? ?%negb_true_iff]%andb_prop ?]. done.
  - rewrite (pctDistance_unusable _ _ Hok) in Hle.
    by rewrite (le_infinity_abs_finite _ Hc) in Hle.
Qed.

(** X6. With a finite threshold, [approaching_stop] fires only when a stop
    is set and the stop and the mark price are finite and the mark price
    is not zero, and never in the same call as [stop_missing]; likewise
    [approaching_tp] for the take-profit price. *)
Theorem approaching_needs_usable_prices (params : Params)
    (h h' : gmap loc TriggerState) (r : Result) :
  call params h = (Returned r, h') →
  (isFinite (approachingStopPct (cfg params)) = true →
   approaching_stop ∈ firedNames r →
   ∃ stop, stopLossPrice (tick params) = Some stop
           ∧ isFinite stop = true
           ∧ isFinite (markPrice (tick params)) = true
           ∧ strictEq (markPrice (tick params)) 0 = false
           ∧ stop_missing ∉ firedNames r)
  ∧ (isFinite (approachingTpPct (cfg params)) = true →
     approaching_tp ∈ firedNames r →
     ∃ tp, takeProfitPrice (tick params) = Some tp
           ∧ isFinite tp = true
           ∧ isFinite (markPrice (tick params)) = true
           ∧ strictEq (markPrice (tick params)) 0 = false).
Proof.
  intros Hcall.
  pose proof Hcall as (s & Hin & _)%call_inv.
  split.
  - intros Hc [Hcond _]%(call_fired_iff _ _ _ _ _ _ Hcall Hin).
    cbn [condition] in Hcond.
    destruct (stopLossPrice (tick params)) as [stop|] eqn:Hstop; [|done].
    destruct (approaching_usable _ _ _ Hc Hcond) as (? & ? & ?).
    exists stop. repeat split; try done.
    rewrite (call_fired_iff _ _ _ _ _ _ Hcall Hin). cbn [condition].
    rewrite Hstop. by intros [Hmiss%bool_decide_eq_true_1 _].
  - intros Hc [Hcond _]%(call_fired_iff _ _ _ _ _ _ Hcall Hin).
    cbn [condition] in Hcond.
    destruct (takeProfitPrice (tick params)) as [tp|]; [|done].
    destruct (approaching_usable _ _ _ Hc Hcond) as (? & ? & ?).
    by exists tp.
Qed.

Lemma sign_nonzero (x : num) :
  strictNe (sign x) 0 = true → isFinite x = true ∧ strictEq x 0 = false.
Proof.
  unfold sign. destruct (isFinite x), (strictEq x 0); cbn; try done.
Qed.

Lemma sign_of_signed (x : num) :
  isFinite x = true → strictEq x 0 = false →
  sign x = if gt x 0 then 1%float else (-1)%float.
Proof. intros Hf Hz. unfold sign. by rewrite Hf, Hz. Qed.

(** X7. When the mark price sits exactly on the stop (a finite price
    other than zero), [approaching_stop] fires under every threshold that
    is not NaN, as soon as its two-minute cooldown allows. *)
Theorem approaching_stop_at_the_stop (params : Params)
    (h h' : gmap loc TriggerState) (r : Result) (s : TriggerState) :
  call params h = (Returned r, h') →
  inputState params h = Some s →
  stopLossPrice (tick params) = Some (markPrice (tick params)) →
  isFinite (markPrice (tick params)) = true →
  strictEq (markPrice (tick params)) 0 = false →
  PrimFloat.is_nan (approachingStopPct (cfg params)) = false →
  approaching_stop ∈ firedNames r
  ↔ ge (nowMs params
        - default 0%float (triggerCooldowns s !! approaching_stop))%float
       120000 = true.
Proof.
  intros Hcall Hs Hstop Hf Hz Hnan.
  rewrite (call_fired_iff _ _ _ _ _ _ Hcall Hs). cbn [condition].
  rewrite Hstop, (pctDistance_self _ Hf Hz), (le_zero_abs _ Hnan).
  split; [by intros [_ ?] | by split].
Qed.

(** X8. [funding_flip] fires only on a reversal: the funding rate and the
    stored [lastFundingRateSign] are finite and one is above zero and the
    other below. In particular it never fires from the default state, nor
    on a zero or non-finite funding rate. *)
Theorem funding_flip_needs_reversal (params : Params)
    (h h' : gmap loc TriggerState) (r : Result) (s : TriggerState) :
  call params h = (Returned r, h') →
  inputState params h = Some s →
  funding_flip ∈ firedNames r →
  isFinite (fundingRate (tick params)) = true
  ∧ isFinite (lastFundingRateSign s) = true
  ∧ ((gt (fundingRate (tick params)) 0 = true
      ∧ lt (lastFundingRateSign s) 0 = true)
     ∨ (lt (fundingRate (tick params)) 0 = true
        ∧ gt (lastFundingRateSign s) 0 = true)).
Proof.
  intros Hcall Hs [Hcond _]%(call_fired_iff _ _ _ _ _ _ Hcall Hs).
  cbn [condition] in Hcond.
  apply andb_prop in Hcond as [[Hl Hf]%andb_prop Hne].
  destruct (sign_nonzero _ Hl) as [Hlf Hlz], (sign_nonzero _ Hf) as [Hff Hfz].
  rewrite (sign_of_signed _ Hlf Hlz), (sign_of_signed _ Hff Hfz) in Hne.
  split; [done|]. split; [done|].
  destruct (finite_nonzero_sign _ Hlf Hlz) as [[Hl1 Hl2]|[Hl1 Hl2]],
    (finite_nonzero_sign _ Hff Hfz) as [[Hf1 Hf2]|[Hf1 Hf2]];
    rewrite ?Hl1, ?Hf1 in Hne; try done; auto.
Qed.

(** X9. [volatility_spike] needs a full window: it fires only when the
    buffer holds at least [window] ticks (never on an empty buffer), and
    when the base tick's mark price is not a finite number above zero the
    move counts as 0, so it fires only under a zero threshold. *)
Theorem volatility_spike_needs_window (params : Params)
    (h h' : gmap loc TriggerState) (r : Result) :
  call params h = (Returned r, h') →
  volatility_spike ∈ firedNames r →
  let window := clampInt (volatilitySpikeWindowTicks (cfg params)) 1 10000 in
  1 ≤ window ≤ Z.of_nat (length (buffer params))
  ∧ ∃ base,
      buffer params !! Z.to_nat (Z.of_nat (length (buffer params)) - window)
      = Some base
      ∧ (isFinite (markPrice base) && gt (markPrice base) 0 = false →
         strictEq (volatilitySpikePct (cfg params)) 0 = true).
Proof.
  intros Hcall Hin window.
  pose proof Hcall as (s & Hs & _)%call_inv.
  apply (call_fired_iff _ _ _ _ _ _ Hcall Hs) in Hin as [Hcond _].
  cbn [condition] in Hcond. cbv zeta in Hcond. fold window in Hcond.
  apply andb_prop in Hcond as [Hguard Hcond].
  pose proof (clampInt_bounds (volatilitySpikeWindowTicks (cfg params)) 1 10000
                ltac:(lia)) as Hw. fold window in Hw.
  apply Z.geb_le in Hguard. split; [lia|].
  unfold arrayGet in Hcond.
  destruct (_ <? 0); [done|].
  destruct (buffer params !! _) as [base|]; [|done].
  exists base. split; [done|]. intros Hbad. rewrite Hbad in Hcond.
  by apply ge_zero_abs.
Qed.

(** X10. At a NaN [nowMs] no cooldown can be seen to have run out: only
    [position_opened], [position_closed] and the first [time_ceiling]
    (no advisor check recorded) can fire. *)
Theorem nan_time_fires_uncooled_only (params : Params)
    (h h' : gmap loc TriggerState) (r : Result) (s : TriggerState)
    (n : HeartbeatTriggerName) :
  call params h = (Returned r, h') →
  inputState params h = Some s →
  nowMs params = nan →
  n ∈ firedNames r →
  n = position_opened ∨ n = position_closed
  ∨ (n = time_ceiling ∧ strictEq (lastLlmCheckTimestamp s) 0 = true).
Proof.
  intros Hcall Hs Hnan [Hcond Hcan]%(call_fired_iff _ _ _ _ _ _ Hcall Hs).
  unfold canFire in Hcan. rewrite Hnan, ge_nan_sub in Hcan.
  destruct n; cbn in Hcan; try done; auto.
  right. right. split; [done|].
  cbn [condition] in Hcond. unfold timeCeilingAged, timeCeilingFirst in Hcond.
  rewrite Hnan, ge_nan_sub, andb_false_r in Hcond. cbn [orb] in Hcond.
  by apply andb_prop in Hcond as [_ ?].
Qed.

(** X11. A trigger without an entry in the cooldown table counts as last
    fired at time 0: with a positive cooldown it fires exactly when its
    condition holds and [nowMs] itself is at least the cooldown. *)
Theorem never_fired_counts_from_zero (params : Params)
    (h h' : gmap loc TriggerState) (r : Result) (s : TriggerState)
    (n : HeartbeatTriggerName) :
  call params h = (Returned r, h') →
  inputState params h = Some s →
  triggerCooldowns s !! n = None →
  gt (cooldownMs (cfg params) n) 0 = true →
  n ∈ firedNames r
  ↔ condition params s n = true
    ∧ ge (nowMs params) (cooldownMs (cfg params) n) = true.
Proof.
  intros Hcall Hs Hnone Hpos.
  rewrite (call_fired_iff _ _ _ _ _ _ Hcall Hs).
  unfold canFire. rewrite Hnone, (gt_zero_not_le_zero _ Hpos). cbn [default].
  by rewrite sub_zero.
Qed.

(** X12. The cooldown never holds a trigger back longer than its length:
    after a firing at [nowMs1] and a stretch without firing, the trigger
    fires in the first call in which its condition holds and
    [nowMs2 - nowMs1] has reached the cooldown. *)
Theorem fires_again_after_cooldown (n : HeartbeatTriggerName)
    (p1 p2 : Params) (h0 h1 h2 h3 : gmap loc TriggerState) (r1 r2 : Result)
    (s2 : TriggerState) :
  call p1 h0 = (Returned r1, h1) →
  n ∈ firedNames r1 →
  quietly (nextState r1) n h1 h2 →
  state p2 = Some (nextState r1) →
  call p2 h2 = (Returned r2, h3) →
  h2 !! nextState r1 = Some s2 →
  condition p2 s2 n = true →
  ge (nowMs p2 - nowMs p1)%float (cooldownMs (cfg p2) n) = true →
  n ∈ firedNames r2.
Proof.
  intros Hc1 Hn1 Hq Hst2 Hc2 Hl2 Hcond Hgap.
  pose proof Hc1 as (s0 & Hin0 & Hf1 & -> & _)%call_inv.
  assert (Hentry :
    triggerCooldowns (outcomeOf p1 s0).2 !! n = Some (nowMs p1)).
  { change (outcomeOf p1 s0).2
      with (stateAfter (nowMs p1) (cfg p1) (candidates p1 s0) s0).
    rewrite stateAfter_cooldowns, decide_True; [done|].
    by rewrite <- (firedNames_recorded _ _ _ Hf1). }
  destruct (quietly_entry _ _ _ _ _ _ Hq (lookup_insert_eq _ _ _) Hentry)
    as (s2' & Hl2' & Hv2).
  rewrite Hl2 in Hl2'. injection Hl2' as <-.
  assert (Hs2 : inputState p2 h2 = Some s2).
  { unfold inputState. by rewrite Hst2. }
  apply (call_fired_iff _ _ _ _ _ _ Hc2 Hs2). split; [done|].
  unfold canFire. rewrite Hv2. by destruct (le _ 0).
Qed.

End Catalog.

(** ** Reading the journal *)

Section Listing.

Import PositionHeartbeatJournal JsMath PositionHeartbeatListing.

Lemma SFcompare_antisym (x y : spec_float) :
  SFcompare y x = option_map CompOpp (SFcompare x y).
Proof.
  destruct x as [[]|[]| |[] mx ex], y as [[]|[]| |[] my ey]; cbn; try done.
  - rewrite (Z.compare_antisym ex ey). destruct (ex ?= ey); cbn; try done.
    by rewrite (Pos.compare_cont_antisym mx my Eq).
  - rewrite (Z.compare_antisym ex ey). destruct (ex ?= ey); cbn; try done.
    by rewrite (Pos.compare_cont_antisym mx my Eq).
Qed.

Lemma lt_le (a b : num) : lt a b = true → le a b = true.
Proof.
  unfold lt, le. rewrite FloatAxioms.ltb_spec, FloatAxioms.leb_spec.
  unfold SFltb, SFleb. by destruct (SFcompare _ _) as [[]|].
Qed.

Lemma lt_le_SF (a b : spec_float) : SFltb a b = true → SFleb a b = true.
Proof. unfold SFltb, SFleb. by destruct (SFcompare _ _) as [[]|]. Qed.

Lemma SFcompare_antisym_leb (a b : spec_float) :
  SFltb a b = true → SFleb b a = false.
Proof.
  unfold SFltb, SFleb. rewrite (SFcompare_antisym a b).
  by destruct (SFcompare a b) as [[]|].
Qed.

Lemma strictEq_refl (x : num) : PrimFloat.is_nan x = false → strictEq x x = true.
Proof.
  unfold is_nan, strictEq. by intros ->%negb_false_iff.
Qed.

(** Neither below nor above a finite number: equal to it. *)
Lemma not_lt_not_gt_eq (x c : num) (s : bool) (m : positive) (e : Z) :
  Prim2SF c = S754_finite s m e →
  PrimFloat.is_nan x = false →
  lt x c = false → lt c x = false → x = c.
Proof.
  intros Hc. rewrite is_nan_spec. unfold lt.
  rewrite !FloatAxioms.ltb_spec. unfold SFltb.
  rewrite (SFcompare_antisym (Prim2SF x) (Prim2SF c)), Hc.
  intros Hnan H1 H2. apply Prim2SF_inj. rewrite Hc.
  destruct (Prim2SF x) as [[]|[]| |sx mx ex]; try done;
    try (by destruct s).
  destruct sx, s; cbn in H1, H2; try done;
    destruct (Z.compare_spec ex e) as [->| |]; cbn in H1, H2; try done;
    rewrite Pos.compare_cont_spec in H1, H2;
    destruct (Pos.compare_spec mx m) as [->| |]; cbn in H1, H2; done.
Qed.

Lemma below_one_not_above_500 (x : num) : lt x 1 = true → lt 500 x = false.
Proof.
  unfold lt. rewrite !FloatAxioms.ltb_spec. unfold SFltb.
  change (Prim2SF 1) with (S754_finite false 4503599627370496 (-52)).
  change (Prim2SF 500) with (S754_finite false 8796093022208000 (-44)).
  destruct (Prim2SF x) as [[]|[]| |[] m e]; try reflexivity.
  - cbn. congruence.
  - unfold SFcompare.
    destruct (Z.compare_spec e (-52)) as [->| |].
    + intros _. reflexivity.
    + intros _. destruct (Z.compare_spec (-44) e); try reflexivity; lia.
    + congruence.
Qed.

(** X13. The limit handed to the query is [params.limit], or 50 when none
    is given, held within [1, 500]: a number within the bounds is passed
    as it is (also a fraction), any other is replaced by the nearer
    bound. A NaN limit is the one case left out: it reaches the query as
    NaN. *)
Theorem query_limit_clamped (params : option ListParams) :
  PrimFloat.is_nan (default 50%float (params ≫= limit)) = false →
  le 1 (queryLimit params) = true ∧ le (queryLimit params) 500 = true
  ∧ (lt (default 50%float (params ≫= limit)) 1 = true →
     queryLimit params = 1%float)
  ∧ (lt 500 (default 50%float (params ≫= limit)) = true →
     queryLimit params = 500%float)
  ∧ (le 1 (default 50%float (params ≫= limit)) = true →
     le (default 50%float (params ≫= limit)) 500 = true →
     queryLimit params = default 50%float (params ≫= limit)).
Proof.
  unfold queryLimit. generalize (default 50%float (params ≫= limit)).
  intros x Hnan. unfold mathMax. rewrite Hnan.
  cbn [orb]. change (PrimFloat.is_nan 1) with false. cbn iota.
  destruct (lt x 1) eqn:Hx1.
  { pose proof (below_one_not_above_500 x Hx1) as H5x.
    repeat split; try done; try by rewrite H5x.
    intros Hle. unfold lt, le in *.
    rewrite FloatAxioms.ltb_spec in Hx1. rewrite FloatAxioms.leb_spec in Hle.
    by rewrite (SFcompare_antisym_leb _ _ Hx1) in Hle. }
  destruct (lt 1 x) eqn:H1x.
  - unfold mathMin. rewrite Hnan. change (PrimFloat.is_nan 500) with false.
    cbn [orb]. cbn iota.
    destruct (lt x 500) eqn:Hx5.
    { assert (lt 500 x = false) as H5x.
      { unfold lt in *. rewrite FloatAxioms.ltb_spec in *.
        apply lt_le_SF in Hx5. unfold SFltb, SFleb in *.
        rewrite (SFcompare_antisym _ _) in Hx5.
        by destruct (SFcompare (Prim2SF 500) (Prim2SF x)) as [[]|]. }
      repeat split; auto using lt_le; try done. by rewrite H5x. }
    destruct (lt 500 x) eqn:H5x.
    { repeat split; try done. intros _ Hle. unfold lt, le in *.
      rewrite FloatAxioms.ltb_spec in H5x. rewrite FloatAxioms.leb_spec in Hle.
      by rewrite (SFcompare_antisym_leb _ _ H5x) in Hle. }
    assert (x = 500%float) as ->
      by (by eapply (not_lt_not_gt_eq x 500); [reflexivity|..]).
    done.
  - assert (x = 1%float) as ->
      by (by eapply (not_lt_not_gt_eq x 1); [reflexivity|..]).
    done.
Qed.

(** What [parsed && parsed.kind === 'position_heartbeat'] lets through. *)
Lemma heartbeat_kind_object (j : Json) :
  isHeartbeatKind j = true →
  truthyJson j = true
  ∧ ∃ fields, j = JObject fields
              ∧ jsonField j "kind" = Some (JString "position_heartbeat").
Proof.
  unfold isHeartbeatKind. destruct j as [| | | | |fields]; try done.
  destruct (jsonField _ _) as [[| | |s| |]|] eqn:Hk; try done.
  intros ->%String.eqb_eq. split; [done|]. by exists fields.
Qed.

Lemma parsedRow_Some (jsonParse : string → option Json) (row : option Row)
    (j : Json) :
  parsedRow jsonParse row = Some j
  ↔ ∃ text, row ≫= payload = Some text ∧ text ≠ ""%string
            ∧ jsonParse text = Some j ∧ isHeartbeatKind j = true.
Proof.
  unfold parsedRow. destruct (row ≫= payload) as [text|]; [|naive_solver].
  destruct (String.eqb_spec text "") as [->|Hne]; [naive_solver|].
  destruct (jsonParse text) as [parsed|] eqn:Hp; [|naive_solver].
  destruct (isHeartbeatKind parsed) eqn:Hk.
  - destruct (heartbeat_kind_object _ Hk) as [-> _]. cbn. naive_solver.
  - rewrite andb_false_r. split; [done|].
    intros (t & [= <-] & _ & Hj & Hk'). rewrite Hp in Hj.
    injection Hj as <-. congruence.
Qed.

(** X14. The listing is the parsed payloads of the rows, row by row and
    as often as they occur, of which those whose [kind] is
    ['position_heartbeat'] are kept: a row without payload or with an
    empty one and a payload that does not parse give no value, a parsed
    value of another kind is dropped, and none of them ends the listing.
    Every item returned is an object with that [kind]. *)
Theorem listing_keeps_heartbeat_records
    (queryAll : option string → option string → num → list (option Row))
    (jsonParse : string → option Json) (params : option ListParams) :
  let rows : list (option Row) :=
    queryAll (params ≫= symbol) (params ≫= symbol) (queryLimit params) in
  let out : list Json :=
    listPositionHeartbeatDecisions queryAll jsonParse params in
  out = filter (λ j, isHeartbeatKind j = true)
          (omap (λ row : option Row,
                   text ← row ≫= payload;
                   if decide (text = ""%string) then None else jsonParse text)
             rows)
  ∧ sublist out
      (omap (λ row : option Row, (row ≫= payload) ≫= jsonParse) rows)
  ∧ Forall (λ j, ∃ fields,
               j = JObject fields
               ∧ jsonField j "kind" = Some (JString "position_heartbeat")) out
  ∧ ∀ j, j ∈ out
         ↔ ∃ text, Some {| payload := Some text |} ∈ rows ∧ text ≠ ""%string
                   ∧ jsonParse text = Some j ∧ isHeartbeatKind j = true.
Proof.
  intros rows out. unfold out, listPositionHeartbeatDecisions. fold rows.
  clearbody rows. clear out. split; [|split; [|split]].
  - induction rows as [|row rows IH]; [done|]. cbn. rewrite IH. clear IH.
    unfold parsedRow at 1. destruct (row ≫= payload) as [text|]; [|done].
    cbn. destruct (String.eqb_spec text "") as [->|Hne].
    { by rewrite decide_True. }
    rewrite decide_False by done.
    destruct (jsonParse text) as [parsed|]; [|done].
    destruct (isHeartbeatKind parsed) eqn:Hk.
    + destruct (heartbeat_kind_object _ Hk) as [-> _]. cbn.
      by rewrite decide_True.
    + rewrite andb_false_r. cbn. by rewrite decide_False by congruence.
  - induction rows as [|row rows IH]; [done|]. cbn.
    destruct (parsedRow jsonParse row) as [j|] eqn:Hrow.
    + apply parsedRow_Some in Hrow as (text & -> & _ & Hj & _). cbn.
      rewrite Hj. by apply sublist_skip.
    + destruct ((row ≫= payload) ≫= jsonParse); [by apply sublist_cons|done].
  - apply Forall_forall. intros j (row & _ & Hrow)%list_elem_of_omap.
    apply parsedRow_Some in Hrow as (_ & _ & _ & _ & Hk).
    exact (proj2 (heartbeat_kind_object _ Hk)).
  - intros j. rewrite list_elem_of_omap. split.
    + intros (row & Hin & (text & Hp & Hrest)%parsedRow_Some).
      exists text. split; [|done]. destruct row as [[[p|]]|]; try done.
      cbn in Hp. by injection Hp as ->.
    + intros (text & Hin & Hrest). eexists. split; [exact Hin|].
      apply parsedRow_Some. by exists text.
Qed.

End Listing.

(** ** A call that passes no state *)

Section AbsentState.

(** X15. A call without [params.state] works on a default state of its
    own: it returns, the object behind [nextState] is a new one and no
    object of the caller is written, [time_ceiling] is among the fired
    triggers whatever the tick and the configuration, and [funding_flip]
    is not. *)
Theorem absent_state_prompts_first_check (params : Params)
    (h : gmap loc TriggerState) :
  state params = None →
  ∃ r h',
    call params h = (Returned r, h')
    ∧ h !! nextState r = None
    ∧ (∀ l s, h !! l = Some s → h' !! l = Some s)
    ∧ time_ceiling ∈ firedNames r
    ∧ funding_flip ∉ firedNames r.
Proof.
  intros Hstate. pose proof (call_none params h Hstate) as Hcall.
  cbv zeta in Hcall. eexists _, _. split; [exact Hcall|].
  assert (Hfresh : h !! fresh (dom h) = None)
    by apply not_elem_of_dom, is_fresh.
  assert (Hin : inputState params h
                = Some (defaultTriggerState (nowMs params)))
    by (unfold inputState; by rewrite Hstate).
  split; [exact Hfresh|]. split.
  { intros l s Hl. rewrite lookup_insert_ne; [done|]. congruence. }
  split.
  - apply (call_fired_iff _ _ _ _ _ _ Hcall Hin). split; [|reflexivity].
    unfold condition. cbn. unfold timeCeilingFirst.
    rewrite ceilingMs_positive. cbn. by rewrite orb_true_r.
  - intros [Hc _]%(call_fired_iff _ _ _ _ _ _ Hcall Hin).
    revert Hc. unfold condition. by cbn.
Qed.

End AbsentState.

(** ** The further properties on polls of the ETH position *)

Section FurtherWitnesses.

Import Scenarios Variations.

Lemma unprotected_call_again :
  call (unprotected 0) storeAfter0
  = (Returned (resultOf (call (unprotected 0) storeAfter0)),
     (call (unprotected 0) storeAfter0).2).
Proof. by vm_compute. Defined.

Lemma nearStop_call :
  call nearStop freshStore
  = (Returned (resultOf (call nearStop freshStore)),
     (call nearStop freshStore).2).
Proof. by vm_compute. Defined.

Lemma atStop_call :
  call atStop freshStore
  = (Returned (resultOf (call atStop freshStore)), (call atStop freshStore).2).
Proof. by vm_compute. Defined.

Lemma fundingReversed_call :
  call fundingReversed {[ 1%positive := afterPositiveFunding ]}
  = (Returned (resultOf (call fundingReversed
                           {[ 1%positive := afterPositiveFunding ]})),
     (call fundingReversed {[ 1%positive := afterPositiveFunding ]}).2).
Proof. by vm_compute. Defined.

Lemma spiking_call :
  call spiking freshStore
  = (Returned (resultOf (call spiking freshStore)), (call spiking freshStore).2).
Proof. by vm_compute. Defined.

Lemma nanTime_call :
  call nanTime freshStore
  = (Returned (resultOf (call nanTime freshStore)), (call nanTime freshStore).2).
Proof. by vm_compute. Defined.

Lemma fired_names_characterised_witness :
  firedNames (resultOf (call (unprotected 0) freshStore))
  = filter (λ n, condition (unprotected 0) (defaultTriggerState (tickMs 0)) n
                 = true
                 ∧ canFire n (nowMs (unprotected 0))
                     (cooldownMs (cfg (unprotected 0)) n)
                     (defaultTriggerState (tickMs 0)) = true)
      evaluationOrder.
Proof.
  exact (fired_names_characterised (unprotected 0) freshStore storeAfter0 _
           (defaultTriggerState (tickMs 0)) unprotected_call_0 eq_refl).
Defined.

Lemma repeated_call_fires_uncooled_only_witness :
  firedNames (resultOf (call (unprotected 0) storeAfter0))
  = filter (λ n, gt (cooldownMs (cfg (unprotected 0)) n) 0 = false)
      (firedNames (resultOf (call (unprotected 0) freshStore))).
Proof.
  exact (repeated_call_fires_uncooled_only (unprotected 0) 1%positive
           freshStore storeAfter0 _ _ _ eq_refl unprotected_call_0
           unprotected_call_again).
Defined.

Lemma time_ceiling_fires_iff_witness :
  time_ceiling ∈ firedNames (resultOf (call (unprotected 0) freshStore))
  ↔ strictEq (lastLlmCheckTimestamp (defaultTriggerState (tickMs 0))) 0 = true
    ∨ (gt (lastLlmCheckTimestamp (defaultTriggerState (tickMs 0))) 0 = true
       ∧ ge (nowMs (unprotected 0)
             - lastLlmCheckTimestamp (defaultTriggerState (tickMs 0)))%float
            (ofZ (clampInt (timeCeilingMinutes (cfg (unprotected 0))) 1 10000
                  * 60000))
         = true).
Proof.
  exact (proj1 (time_ceiling_fires_iff (unprotected 0) freshStore storeAfter0 _
                  (defaultTriggerState (tickMs 0)) unprotected_call_0 eq_refl)).
Defined.

Lemma justOpened_call :
  call justOpened freshStore
  = (Returned (resultOf (call justOpened freshStore)),
     (call justOpened freshStore).2).
Proof. by vm_compute. Defined.

Lemma justOpened_call_again :
  call justOpened (call justOpened freshStore).2
  = (Returned (resultOf (call justOpened (call justOpened freshStore).2)),
     (call justOpened (call justOpened freshStore).2).2).
Proof. by vm_compute. Defined.

Lemma justClosed_call :
  call justClosed freshStore
  = (Returned (resultOf (call justClosed freshStore)),
     (call justClosed freshStore).2).
Proof. by vm_compute. Defined.

Lemma position_flags_always_fire_witness :
  position_opened ∈ firedNames (resultOf (call justOpened freshStore))
  ∧ (position_closed ∉ firedNames (resultOf (call justOpened freshStore)))
  ∧ position_opened
    ∈ firedNames (resultOf (call justOpened (call justOpened freshStore).2))
  ∧ position_closed ∈ firedNames (resultOf (call justClosed freshStore))
  ∧ (position_opened ∉ firedNames (resultOf (call justClosed freshStore))).
Proof.
  destruct (position_flags_always_fire justOpened freshStore _ _
              justOpened_call) as [Hopened Hclosed].
  destruct (position_flags_always_fire justOpened _ _ _
              justOpened_call_again) as [Hopened' _].
  destruct (position_flags_always_fire justClosed freshStore _ _
              justClosed_call) as [Hopened'' Hclosed''].
  split; [exact (proj2 Hopened eq_refl)|].
  split; [intros Hin; apply (proj1 Hclosed) in Hin; discriminate Hin|].
  split; [exact (proj2 Hopened' eq_refl)|].
  split; [exact (proj2 Hclosed'' eq_refl)|].
  intros Hin. apply (proj1 Hopened'') in Hin. discriminate Hin.
Defined.

Lemma approaching_needs_usable_prices_witness :
  approaching_stop ∈ firedNames (resultOf (call nearStop freshStore))
  ∧ ∃ stop, stopLossPrice (tick nearStop) = Some stop
            ∧ isFinite stop = true
            ∧ isFinite (markPrice (tick nearStop)) = true
            ∧ strictEq (markPrice (tick nearStop)) 0 = false
            ∧ stop_missing ∉ firedNames (resultOf (call nearStop freshStore)).
Proof.
  assert (Hin : approaching_stop
                ∈ firedNames (resultOf (call nearStop freshStore))).
  { vm_compute. apply list_elem_of_here. }
  split; [exact Hin|].
  exact (proj1 (approaching_needs_usable_prices nearStop freshStore _ _
                  nearStop_call) eq_refl Hin).
Defined.

Lemma approaching_stop_at_the_stop_witness :
  approaching_stop ∈ firedNames (resultOf (call atStop freshStore))
  ↔ ge (nowMs atStop
        - default 0%float
            (triggerCooldowns (defaultTriggerState (tickMs 0))
             !! approaching_stop))%float 120000 = true.
Proof.
  exact (approaching_stop_at_the_stop atStop freshStore _ _
           (defaultTriggerState (tickMs 0)) atStop_call eq_refl eq_refl
           eq_refl eq_refl eq_refl).
Defined.

Lemma funding_flip_needs_reversal_witness :
  funding_flip
  ∈ firedNames (resultOf (call fundingReversed
                            {[ 1%positive := afterPositiveFunding ]}))
  ∧ isFinite (fundingRate (tick fundingReversed)) = true
  ∧ isFinite (lastFundingRateSign afterPositiveFunding) = true
  ∧ ((gt (fundingRate (tick fundingReversed)) 0 = true
      ∧ lt (lastFundingRateSign afterPositiveFunding) 0 = true)
     ∨ (lt (fundingRate (tick fundingReversed)) 0 = true
        ∧ gt (lastFundingRateSign afterPositiveFunding) 0 = true)).
Proof.
  assert (Hin : funding_flip
                ∈ firedNames (resultOf (call fundingReversed
                                          {[ 1%positive := afterPositiveFunding ]}))).
  { vm_compute. apply list_elem_of_here. }
  split; [exact Hin|].
  exact (funding_flip_needs_reversal fundingReversed
           {[ 1%positive := afterPositiveFunding ]} _ _ afterPositiveFunding
           fundingReversed_call eq_refl Hin).
Defined.

Lemma volatility_spike_needs_window_witness :
  volatility_spike ∈ firedNames (resultOf (call spiking freshStore))
  ∧ 1 ≤ clampInt (volatilitySpikeWindowTicks (cfg spiking)) 1 10000
      ≤ Z.of_nat (length (buffer spiking))
  ∧ ∃ base,
      buffer spiking
      !! Z.to_nat (Z.of_nat (length (buffer spiking))
                   - clampInt (volatilitySpikeWindowTicks (cfg spiking)) 1 10000)
      = Some base
      ∧ (isFinite (markPrice base) && gt (markPrice base) 0 = false →
         strictEq (volatilitySpikePct (cfg spiking)) 0 = true).
Proof.
  assert (Hin : volatility_spike
                ∈ firedNames (resultOf (call spiking freshStore))).
  { vm_compute. apply list_elem_of_here. }
  split; [exact Hin|].
  exact (volatility_spike_needs_window spiking freshStore _ _ spiking_call Hin).
Defined.

Lemma nan_time_fires_uncooled_only_witness :
  time_ceiling ∈ firedNames (resultOf (call nanTime freshStore))
  ∧ (time_ceiling = position_opened ∨ time_ceiling = position_closed
     ∨ (time_ceiling = time_ceiling
        ∧ strictEq (lastLlmCheckTimestamp (defaultTriggerState (tickMs 0))) 0
          = true)).
Proof.
  assert (Hin : time_ceiling ∈ firedNames (resultOf (call nanTime freshStore))).
  { vm_compute. apply list_elem_of_here. }
  split; [exact Hin|].
  exact (nan_time_fires_uncooled_only nanTime freshStore _ _
           (defaultTriggerState (tickMs 0)) time_ceiling nanTime_call eq_refl
           eq_refl Hin).
Defined.

Lemma never_fired_counts_from_zero_witness :
  stop_missing ∈ firedNames (resultOf (call (unprotected 0) freshStore))
  ↔ condition (unprotected 0) (defaultTriggerState (tickMs 0)) stop_missing
    = true
    ∧ ge (nowMs (unprotected 0)) (cooldownMs (cfg (unprotected 0)) stop_missing)
      = true.
Proof.
  exact (never_fired_counts_from_zero (unprotected 0) freshStore storeAfter0 _
           (defaultTriggerState (tickMs 0)) stop_missing unprotected_call_0
           eq_refl eq_refl eq_refl).
Defined.

Lemma fires_again_after_cooldown_witness :
  stop_missing ∈ firedNames (resultOf (call (unprotected 0) freshStore))
  ∧ (stop_missing ∉ firedNames (resultOf (call (unprotected 1) storeAfter0)))
  ∧ ge (nowMs (unprotected 2) - nowMs (unprotected 0))%float
       (cooldownMs (cfg (unprotected 2)) stop_missing) = true
  ∧ stop_missing ∈ firedNames (resultOf (call (unprotected 2) storeAfter1)).
Proof.
  assert (H0 : stop_missing
               ∈ firedNames (resultOf (call (unprotected 0) freshStore))).
  { vm_compute. apply list_elem_of_here. }
  assert (H1 : stop_missing
               ∉ firedNames (resultOf (call (unprotected 1) storeAfter0))).
  { vm_compute. intros Hin. apply elem_of_cons in Hin as [Hin|Hin]; [done|].
    by apply elem_of_nil in Hin. }
  split; [exact H0|]. split; [exact H1|]. split; [reflexivity|].
  eapply (fires_again_after_cooldown stop_missing (unprotected 0) (unprotected 2)
            freshStore storeAfter0 storeAfter1 storeAfter2
            (resultOf (call (unprotected 0) freshStore))
            (resultOf (call (unprotected 2) storeAfter1))
            _ unprotected_call_0 H0).
  - eapply quietly_call; [| exact unprotected_call_1 | exact H1 | apply quietly_done].
    reflexivity.
  - reflexivity.
  - exact unprotected_call_2.
  - vm_compute. reflexivity.
  - reflexivity.
  - reflexivity.
Defined.

Lemma query_limit_clamped_witness :
  le 1 (PositionHeartbeatListing.queryLimit generous) = true ∧ le (PositionHeartbeatListing.queryLimit generous) 500 = true
  ∧ PositionHeartbeatListing.queryLimit generous = 500%float.
Proof.
  destruct (query_limit_clamped generous eq_refl) as (H1 & H2 & _ & H3 & _).
  split; [exact H1|]. split; [exact H2|]. exact (H3 eq_refl).
Defined.

Lemma listing_keeps_heartbeat_records_witness :
  PositionHeartbeatListing.listPositionHeartbeatDecisions sampleRows
    sampleParse generous
  = [sampleRecord; sampleRecord].
Proof.
  etrans;
    [exact (proj1 (listing_keeps_heartbeat_records sampleRows sampleParse
                     generous))|].
  reflexivity.
Defined.

Lemma absent_state_prompts_first_check_witness :
  ∃ r h',
    call stateless ∅ = (Returned r, h')
    ∧ (∅ : gmap loc TriggerState) !! nextState r = None
    ∧ (∀ l s, (∅ : gmap loc TriggerState) !! l = Some s → h' !! l = Some s)
    ∧ time_ceiling ∈ firedNames r
    ∧ funding_flip ∉ firedNames r.
Proof.
  exact (absent_state_prompts_first_check stateless ∅ eq_refl).
Defined.

End FurtherWitnesses.
